(** * PII span pipeline: character tags, token alignment, batch collation,
      BIO span decoding and span validation.

    Shallow embedding of [src/dataset.py] and [src/predict.py].  Python
    integers are [Z], Python lists are [list], [str] is [string] (texts are
    taken to be ASCII, one character per code point), dictionaries are
    [gmap]s, and a computation that may raise is a value of [result]. *)

From Stdlib Require Import ZArith Lia Ascii String Btauto.
From stdpp Require Import gmap strings list fin_maps.

Local Open Scope Z_scope.

(** ** Exceptions and the error monad *)

Inductive exn : Type :=
  | IndexError
  | KeyError
  | ValueError
  | JSONDecodeError.

Inductive result (A : Type) : Type :=
  | Ok (a : A)
  | Raise (e : exn).
Arguments Ok {A} a.
Arguments Raise {A} e.

#[global] Instance result_ret : MRet result := fun _ a => Ok a.
#[global] Instance result_bind : MBind result := fun _ _ f m =>
  match m with
  | Ok a => f a
  | Raise e => Raise e
  end.

(** A [for] loop whose body may raise. *)
Fixpoint for_each {A S : Type} (body : S → A → result S) (st : S) (xs : list A)
    : result S :=
  match xs with
  | [] => Ok st
  | x :: xs' => st' ← body st x; for_each body st' xs'
  end.

(** ** Python primitives *)

Module Py.

Definition len {A : Type} (l : list A) : Z := Z.of_nat (length l).

Definition str_len (s : string) : Z := Z.of_nat (String.length s).

(** [l[i]], with a negative index counted from the end. *)
Definition getitem {A : Type} (l : list A) (i : Z) : result A :=
  let j := if i <? 0 then i + len l else i in
  if (j <? 0) || (len l <=? j) then Raise IndexError
  else match l !! Z.to_nat j with
       | Some x => Ok x
       | None => Raise IndexError
       end.

(** [l[i] = x]. *)
Definition setitem {A : Type} (l : list A) (i : Z) (x : A) : result (list A) :=
  let j := if i <? 0 then i + len l else i in
  if (j <? 0) || (len l <=? j) then Raise IndexError
  else Ok (<[Z.to_nat j := x]> l).

(** [d[k]] on a dictionary. *)
Definition dict_getitem `{Countable K} {V : Type} (d : gmap K V) (k : K)
    : result V :=
  match d !! k with
  | Some v => Ok v
  | None => Raise KeyError
  end.

(** [d.get(k, dflt)]. *)
Definition dict_get `{Countable K} {V : Type} (d : gmap K V) (k : K) (dflt : V)
    : V :=
  default dflt (d !! k).

(** [range(a, b)]. *)
Definition range (a b : Z) : list Z := seqZ a (b - a).

(** [[x] * n]; a negative count gives the empty list. *)
Definition repeat {A : Type} (x : A) (n : Z) : list A :=
  replicate (Z.to_nat n) x.

(** [zip(xs, ys)] stops at the shorter list. *)
Definition zip {A B : Type} (xs : list A) (ys : list B) : list (A * B) :=
  base.zip xs ys.

(** [max(xs)] raises on the empty sequence. *)
Definition max (xs : list Z) : result Z :=
  match xs with
  | [] => Raise ValueError
  | x :: xs' => Ok (foldl Z.max x xs')
  end.

Definition is_upper (c : ascii) : bool :=
  let n := nat_of_ascii c in (65 <=? n)%nat && (n <=? 90)%nat.

Definition lower_char (c : ascii) : ascii :=
  if is_upper c then ascii_of_nat (nat_of_ascii c + 32) else c.

(** [s.lower()]. *)
Fixpoint lower (s : string) : string :=
  match s with
  | EmptyString => EmptyString
  | String c s' => String (lower_char c) (lower s')
  end.

(** The characters removed by [s.strip()]. *)
Definition is_space (c : ascii) : bool :=
  let n := nat_of_ascii c in
  ((9 <=? n)%nat && (n <=? 13)%nat) || ((28 <=? n)%nat && (n <=? 32)%nat).

Fixpoint lstrip (s : string) : string :=
  match s with
  | EmptyString => EmptyString
  | String c s' => if is_space c then lstrip s' else s
  end.

Fixpoint rstrip (s : string) : string :=
  match s with
  | EmptyString => EmptyString
  | String c s' =>
      match rstrip s' with
      | EmptyString => if is_space c then EmptyString else String c EmptyString
      | r => String c r
      end
  end.

(** [s.strip()]. *)
Definition strip (s : string) : string := rstrip (lstrip s).

(** [s[i:j]], both bounds given. *)
Definition slice (s : string) (i j : Z) : string :=
  let n := str_len s in
  let clamp k := let k' := if k <? 0 then k + n else k in
                 Z.min n (Z.max 0 k') in
  let a := clamp i in
  let b := clamp j in
  String.substring (Z.to_nat a) (Z.to_nat (b - a)) s.

(** [needle in hay] on strings. *)
Fixpoint contains (needle hay : string) : bool :=
  String.prefix needle hay
  || match hay with
     | EmptyString => false
     | String _ hay' => contains needle hay'
     end.

(** [s.split(sep, 1)] for a one-character separator: the parts before and
    after the first [sep], or [None] when [s] has no [sep] (the list then
    has the single element [s]). *)
Fixpoint split_once (sep : ascii) (s : string) : option (string * string) :=
  match s with
  | EmptyString => None
  | String c s' =>
      if Ascii.eqb c sep then Some (EmptyString, s')
      else match split_once sep s' with
           | Some (a, b) => Some (String c a, b)
           | None => None
           end
  end.

(** The regular expressions of [validate_span] are alternations of the
    class [\d] and of literal words. *)
Inductive re_alt : Type :=
  | ReDigit
  | ReLit (w : string).

Definition is_digit (c : ascii) : bool :=
  let n := nat_of_ascii c in (48 <=? n)%nat && (n <=? 57)%nat.

(** One alternative matched at the start of [s]. *)
Definition re_match_alt (s : string) (a : re_alt) : bool :=
  match a with
  | ReDigit => match s with
               | String c _ => is_digit c
               | EmptyString => false
               end
  | ReLit w => String.prefix w s
  end.

(** [re.search(alts, s)] as a truth value: some position of [s] where
    some alternative matches. *)
Fixpoint re_search (alts : list re_alt) (s : string) : bool :=
  existsb (re_match_alt s) alts
  || match s with
     | EmptyString => false
     | String _ s' => re_search alts s'
     end.

End Py.

(** ** The data of the pipeline *)

(** An entity annotation of a record: [{"start", "end", "label"}]. *)
Record entity : Type := Entity {
  e_start : Z;
  e_end : Z;
  e_label : string
}.

(** A line of the input once parsed by [json.loads]; a key that is absent
    is [None]. *)
Record json_obj : Type := JsonObj {
  j_id : option string;
  j_text : option string;
  j_entities : option (list entity)
}.

(** What the tokenizer returns for one text. *)
Record encoding : Type := Encoding {
  enc_offset_mapping : list (Z * Z);
  enc_input_ids : list Z;
  enc_attention_mask : list Z
}.

(** The tokenizer, an external collaborator: the call with
    [return_offsets_mapping=True, truncation=True] (the flag says whether
    [padding="max_length"] is passed), and its special token ids, any of
    which may be [None]. *)
Record tokenizer_t : Type := Tokenizer {
  tok_call : bool → Z → string → encoding;
  cls_token_id : option Z;
  sep_token_id : option Z;
  pad_token_id : option Z
}.

(** An element of [PIIDataset.items], also an element of a batch. *)
Record item : Type := Item {
  it_id : string;
  it_text : string;
  it_input_ids : list Z;
  it_attention_mask : list Z;
  it_labels : list Z;
  it_offset_mapping : list (Z * Z)
}.

(** The dictionary returned by [collate_batch]. *)
Record batch_out : Type := BatchOut {
  bo_input_ids : list (list Z);
  bo_attention_mask : list (list Z);
  bo_labels : list (list Z);
  bo_ids : list string;
  bo_texts : list string;
  bo_offset_mapping : list (list (Z * Z))
}.

(** A decoded span [(start, end, label)]. *)
Definition span : Type := Z * Z * string.

(** An entry of the prediction output. *)
Record pred_entity : Type := PredEntity {
  p_start : Z;
  p_end : Z;
  p_label : string;
  p_pii : bool
}.

(** ** dataset.py *)

(** [{l: i for i, l in enumerate(label_list)}]: a label listed twice keeps
    its last index. *)
Definition label2id (label_list : list string) : gmap string Z :=
  foldl (fun d il => <[il.2 := Z.of_nat il.1]> d) ∅ (imap pair label_list).

(** Step 1 of [PIIDataset.__init__], the body of [for e in entities]. *)
Definition tag_entity (text : string) (char_tags : list string) (e : entity)
    : result (list string) :=
  let s := e_start e in
  let e_idx := e_end e in
  let lab := e_label e in
  if (s <? 0) || (e_idx >? Py.str_len text) || (s >=? e_idx) then Ok char_tags
  else
    char_tags ← Py.setitem char_tags s ("B-" +:+ lab);
    for_each (fun tags i => Py.setitem tags i ("I-" +:+ lab))
             char_tags (Py.range (s + 1) e_idx).

(** Step 1 of [PIIDataset.__init__]: the character-level tags. *)
Definition build_char_tags (text : string) (entities : list entity)
    : result (list string) :=
  for_each (tag_entity text) (Py.repeat "O" (Py.str_len text)) entities.

(** [input_ids[idx] in [cls_token_id, sep_token_id, pad_token_id]]. *)
Definition is_special_id (tokenizer : tokenizer_t) (tid : Z) : bool :=
  bool_decide (Some tid ∈ [cls_token_id tokenizer; sep_token_id tokenizer;
                           pad_token_id tokenizer]).

(** Step 3 of [PIIDataset.__init__], the body of the loop over
    [enumerate(offsets)]: the label appended for one token. *)
Definition token_label (tokenizer : tokenizer_t) (l2i : gmap string Z)
    (char_tags : list string) (input_ids : list Z) (idx : nat) (off : Z * Z)
    : result Z :=
  let '(start, end_) := off in
  ignored ← (if start =? end_ then Ok true
             else tid ← Py.getitem input_ids (Z.of_nat idx);
                  Ok (is_special_id tokenizer tid));
  if ignored : bool then Ok (-100)
  else if start <? Py.len char_tags then
    tag_str ← Py.getitem char_tags start;
    o ← Py.dict_getitem l2i "O";
    Ok (Py.dict_get l2i tag_str o)
  else Py.dict_getitem l2i "O".

(** Step 3 of [PIIDataset.__init__]: one label id per token. *)
Definition align_bio_tags (tokenizer : tokenizer_t) (l2i : gmap string Z)
    (char_tags : list string) (offsets : list (Z * Z)) (input_ids : list Z)
    : result (list Z) :=
  for_each (fun bio_tags io =>
              lab ← token_label tokenizer l2i char_tags input_ids io.1 io.2;
              Ok (bio_tags ++ [lab]))
           [] (imap pair offsets).

(** The body of [for line in f] in [PIIDataset.__init__]. [json_loads] is
    [json.loads]: [None] stands for a [JSONDecodeError]. *)
Definition load_line (json_loads : string → option json_obj)
    (tokenizer : tokenizer_t) (label_list : list string) (max_length : Z)
    (items : list item) (line : string) : result (list item) :=
  let line := Py.strip line in
  if bool_decide (line = "") then Ok items
  else
    match json_loads line with
    | None => Raise JSONDecodeError
    | Some obj =>
        match j_text obj with
        | None => Raise KeyError
        | Some text =>
            let entities := default [] (j_entities obj) in
            char_tags ← build_char_tags text entities;
            let enc := tok_call tokenizer true max_length text in
            let offsets := enc_offset_mapping enc in
            let input_ids := enc_input_ids enc in
            let attention_mask := enc_attention_mask enc in
            bio_tags ← align_bio_tags tokenizer (label2id label_list)
                                      char_tags offsets input_ids;
            match j_id obj with
            | None => Raise KeyError
            | Some id =>
                Ok (items ++ [Item id text input_ids attention_mask bio_tags
                                   offsets])
            end
        end
    end.

(** [PIIDataset.__init__] on the lines of the opened file: the value of
    [self.items]. *)
Definition PIIDataset_init (json_loads : string → option json_obj)
    (lines : list string) (tokenizer : tokenizer_t) (label_list : list string)
    (max_length : Z) : result (list item) :=
  for_each (load_line json_loads tokenizer label_list max_length) [] lines.

(** The local function [pad] of [collate_batch]. *)
Definition pad {A : Type} (seq : list A) (pad_value : A) (max_len : Z) : list A :=
  seq ++ Py.repeat pad_value (max_len - Py.len seq).

Definition collate_batch (batch : list item) (pad_token_id : Z) (label_pad_id : Z)
    : result batch_out :=
  let input_ids_list := it_input_ids <$> batch in
  let attention_list := it_attention_mask <$> batch in
  let labels_list := it_labels <$> batch in
  max_len ← Py.max (Py.len <$> input_ids_list);
  let input_ids := (fun ids => pad ids pad_token_id max_len) <$> input_ids_list in
  let attention_mask := (fun am => pad am 0 max_len) <$> attention_list in
  let labels := (fun lab => pad lab label_pad_id max_len) <$> labels_list in
  Ok (BatchOut input_ids attention_mask labels
               (it_id <$> batch) (it_text <$> batch)
               (it_offset_mapping <$> batch)).

(** The default of the parameter [label_pad_id]. *)
Definition default_label_pad_id : Z := -100.

(** ** predict.py *)

Definition digit_words : list string :=
  ["one"; "two"; "three"; "four"; "five"; "six"; "seven"; "eight"; "nine";
   "zero"].

(** [r'\d|one|two|three|four|five|six|seven|eight|nine|zero|plus'] *)
Definition phone_re : list Py.re_alt :=
  Py.ReDigit :: (Py.ReLit <$> digit_words ++ ["plus"]).

(** [r'\d|one|two|three|four|five|six|seven|eight|nine|zero'] *)
Definition credit_card_re : list Py.re_alt :=
  Py.ReDigit :: (Py.ReLit <$> digit_words).

Definition validate_span (text label : string) : bool :=
  let text := Py.lower text in
  if bool_decide (label = "PHONE") then
    if Py.re_search phone_re text then true else false
  else if bool_decide (label = "EMAIL") then
    if Py.contains " at " text || Py.contains "@" text
       || Py.contains " dot " text
    then true else false
  else if bool_decide (label = "CREDIT_CARD") then
    if Py.re_search credit_card_re text then true else false
  else if bool_decide (label = "DATE") then true
  else true.

(** The local variables of [bio_to_spans]. [current_start] and
    [current_end] are read only while [current_label] is not [None], and
    are assigned whenever [current_label] is; their initial [None] is never
    read and is represented by [0]. *)
Record decoder_state : Type := DecoderState {
  spans : list span;
  current_label : option string;
  current_start : Z;
  current_end : Z
}.

Definition decoder_init : decoder_state := DecoderState [] None 0 0.

(** [spans.append((current_start, current_end, current_label))] under the
    test [current_label is not None]. *)
Definition emit_open (st : decoder_state) : list span :=
  match current_label st with
  | Some cl => spans st ++ [(current_start st, current_end st, cl)]
  | None => spans st
  end.

(** The body of the loop of [bio_to_spans]. [ID2LABEL] is the table of
    [labels.py]. *)
Definition decode_step (ID2LABEL : gmap Z string) (st : decoder_state)
    (tok : (Z * Z) * Z) : result decoder_state :=
  let '((start, end_), lid) := tok in
  if (start =? 0) && (end_ =? 0) then Ok st
  else
    let label := Py.dict_get ID2LABEL lid "O" in
    if bool_decide (label = "O") then
      Ok (DecoderState (emit_open st) None (current_start st) (current_end st))
    else
      match Py.split_once "-" label with
      | None => Raise ValueError
      | Some (prefix, ent_type) =>
          if bool_decide (prefix = "B") then
            Ok (DecoderState (emit_open st) (Some ent_type) start end_)
          else if bool_decide (prefix = "I") then
            if bool_decide (current_label st = Some ent_type) then
              Ok (DecoderState (spans st) (current_label st)
                               (current_start st) end_)
            else
              Ok (DecoderState (emit_open st) (Some ent_type) start end_)
          else Ok st
      end.

Definition bio_to_spans (ID2LABEL : gmap Z string) (text : string)
    (offsets : list (Z * Z)) (label_ids : list Z) : result (list span) :=
  st ← for_each (decode_step ID2LABEL) decoder_init (Py.zip offsets label_ids);
  Ok (emit_open st).

(** The filtering loop of [main] over [raw_spans]. [label_is_pii] is the
    function of [labels.py]. *)
Definition filter_spans (label_is_pii : string → bool) (text : string)
    (raw_spans : list span) : list pred_entity :=
  foldl (fun ents sp =>
           let '(s, e, lab) := sp in
           let span_text := Py.slice text s e in
           if validate_span span_text lab
           then ents ++ [PredEntity s e lab (label_is_pii lab)]
           else ents)
        [] raw_spans.

(** The body of [for line in f] in [main]. [model] is the network followed
    by the arg-max: from the input ids and the attention mask to one label
    id per token. *)
Definition predict_line (json_loads : string → option json_obj)
    (tokenizer : tokenizer_t) (model : list Z → list Z → list Z)
    (ID2LABEL : gmap Z string) (label_is_pii : string → bool) (max_length : Z)
    (results : gmap string (list pred_entity)) (line : string)
    : result (gmap string (list pred_entity)) :=
  match json_loads line with
  | None => Raise JSONDecodeError
  | Some obj =>
      match j_text obj with
      | None => Raise KeyError
      | Some text =>
          match j_id obj with
          | None => Raise KeyError
          | Some uid =>
              let enc := tok_call tokenizer false max_length text in
              let offsets := enc_offset_mapping enc in
              let pred_ids := model (enc_input_ids enc) (enc_attention_mask enc) in
              raw_spans ← bio_to_spans ID2LABEL text offsets pred_ids;
              let ents := filter_spans label_is_pii text raw_spans in
              Ok (<[uid := ents]> results)
          end
      end
  end.

(** [main] on the lines of the input file: the dictionary [results] that is
    written out. *)
Definition main (json_loads : string → option json_obj) (lines : list string)
    (tokenizer : tokenizer_t) (model : list Z → list Z → list Z)
    (ID2LABEL : gmap Z string) (label_is_pii : string → bool) (max_length : Z)
    : result (gmap string (list pred_entity)) :=
  for_each (predict_line json_loads tokenizer model ID2LABEL label_is_pii
                         max_length) ∅ lines.

(** ** Specification-level notions *)

(** The invariant of an entity annotation: [0 <= start < end <= len(text)]. *)
Definition valid_entity (text : string) (e : entity) : Prop :=
  0 ≤ e_start e ∧ e_start e < e_end e ∧ e_end e ≤ Py.str_len text.

(** The tag that a valid annotation [e] gives to character [i], where the
    tag was [old] before. *)
Definition painted (e : entity) (i : nat) (old : option string) : option string :=
  if bool_decide (Z.of_nat i = e_start e) then Some ("B-" +:+ e_label e)
  else if bool_decide (e_start e < Z.of_nat i < e_end e)
       then Some ("I-" +:+ e_label e)
       else old.

(** The label of a token according to the alignment policy: the ignore
    sentinel for a zero-width token or one whose id is a special token id;
    else the id of the tag of the token's first character, [o] (the id of
    O) when that tag has no id; else [o]. *)
Definition aligned_label (tokenizer : tokenizer_t) (l2i : gmap string Z) (o : Z)
    (char_tags : list string) (off : Z * Z) (tid : Z) : Z :=
  if bool_decide (off.1 = off.2) || is_special_id tokenizer tid then -100
  else if bool_decide (off.1 < Py.len char_tags) then
    match char_tags !! Z.to_nat off.1 with
    | Some tag => default o (l2i !! tag)
    | None => o
    end
  else o.

(** The same policy without the test on the token id: the label by the
    offsets alone. *)
Definition offset_label (l2i : gmap string Z) (o : Z) (char_tags : list string)
    (off : Z * Z) : Z :=
  if bool_decide (off.1 = off.2) then -100
  else if bool_decide (off.1 < Py.len char_tags) then
    match char_tags !! Z.to_nat off.1 with
    | Some tag => default o (l2i !! tag)
    | None => o
    end
  else o.

(** ** Sample inputs *)

Definition sample_labels : list string :=
  ["O"; "B-PHONE"; "I-PHONE"; "B-EMAIL"; "I-EMAIL"].

Definition sample_ID2LABEL : gmap Z string :=
  list_to_map [(0, "O"); (1, "B-PHONE"); (2, "I-PHONE"); (3, "B-EMAIL");
               (4, "I-EMAIL")].

(** A tokenizer that splits at spaces, with BERT's special token ids. Only
    its special ids matter below. *)
Definition sample_tokenizer : tokenizer_t :=
  Tokenizer (fun _ _ _ => Encoding [] [] []) (Some 101) (Some 102) (Some 0).

(** ** Notions for the decoder's guarantees *)

Definition span_start (sp : span) : Z := sp.1.1.
Definition span_end (sp : span) : Z := sp.1.2.

(** Pairwise non-overlapping and sorted ascending by start. *)
Definition disjoint_sorted (l : list span) : Prop :=
  ∀ (i j : nat) (a b : span),
    (i < j)%nat → l !! i = Some a → l !! j = Some b →
    span_end a ≤ span_start b ∧ span_start a ≤ span_start b.

(** The label strings of a BIO vocabulary: O, B-TYPE, I-TYPE. *)
Definition is_bio_label (l : string) : bool :=
  bool_decide (l = "O") || String.prefix "B-" l || String.prefix "I-" l.

Definition bio_vocabulary (ID2LABEL : gmap Z string) : bool :=
  forallb (fun il => is_bio_label il.2) (map_to_list ID2LABEL).

(** The test of the decoder for a token to skip, and zero width. *)
Definition is_zero_zero (off : Z * Z) : bool := (off.1 =? 0) && (off.2 =? 0).
Definition is_zero_width (off : Z * Z) : bool := off.1 =? off.2.

(** Left-to-right, non-overlapping character ranges: apart from the tokens
    that [skip] sets aside, every token has [start <= end] and starts at or
    after the end of the one before it ([prev_end], when there is one). *)
Fixpoint ordered_after (skip : Z * Z → bool) (prev_end : option Z)
    (offsets : list (Z * Z)) : bool :=
  match offsets with
  | [] => true
  | off :: rest =>
      if skip off then ordered_after skip prev_end rest
      else match prev_end with
           | Some p => p <=? off.1
           | None => true
           end
           && (off.1 <=? off.2)
           && ordered_after skip (Some off.2) rest
  end.

Definition left_to_right (skip : Z * Z → bool) (offsets : list (Z * Z)) : bool :=
  ordered_after skip None offsets.

Definition sample_batch : list item :=
  [Item "u1" "hi" [101; 7; 102] [1; 1; 1] [-100; 1; -100] [];
   Item "u2" "a" [101; 102] [1; 1] [-100; -100] []].

(** ** Notions for the validator *)

Definition has_digit (s : string) : bool :=
  existsb Py.is_digit (list_ascii_of_string s).

Definition has_digit_word (s : string) : bool :=
  existsb (fun w => Py.contains w s) digit_words.

(** The acceptance rule of the validator as its table words it, on the
    lowercased substring [sub] of a span labeled [label]. *)
Definition plausible (label sub : string) : bool :=
  if bool_decide (label = "PHONE") then
    has_digit sub || has_digit_word sub || Py.contains "plus" sub
  else if bool_decide (label = "CREDIT_CARD") then
    has_digit sub || has_digit_word sub
  else if bool_decide (label = "EMAIL") then
    Py.contains "@" sub || Py.contains " at " sub || Py.contains " dot " sub
  else true.

(** A span is kept when the lowercased [text[start:end]] is plausible for
    its label. *)
Definition accepted (text : string) (sp : span) : bool :=
  plausible sp.2 (Py.lower (Py.slice text sp.1.1 sp.1.2)).

(** The output entry of a kept span. *)
Definition to_pred_entity (label_is_pii : string → bool) (sp : span)
    : pred_entity :=
  PredEntity sp.1.1 sp.1.2 sp.2 (label_is_pii sp.2).

(** What the loop of [bio_to_spans] maintains: the spans emitted so far
    together with the open one are disjoint and sorted, each has
    [start <= end], and each ends at or before [prev], the end of the last
    token processed. *)
Definition decoder_inv (prev : option Z) (st : decoder_state) : Prop :=
  disjoint_sorted (emit_open st)
  ∧ ∀ sp, sp ∈ emit_open st →
          span_start sp ≤ span_end sp
          ∧ match prev with
            | Some p => span_end sp ≤ p
            | None => False
            end.

(** ** Notions for the round trip *)

(** A token of the stream: its offsets and its input id. *)
Abbreviation token := ((Z * Z) * Z)%type.

(** The training path followed by the decoder on the same stream:
    character tags, gold label ids, spans. *)
Definition round_trip (tokenizer : tokenizer_t) (label_list : list string)
    (ID2LABEL : gmap Z string) (text : string) (entities : list entity)
    (toks : list token) : result (list span) :=
  char_tags ← build_char_tags text entities;
  gold ← align_bio_tags tokenizer (label2id label_list) char_tags
                        toks.*1 toks.*2;
  bio_to_spans ID2LABEL text toks.*1 gold.

(** The tag [tag] has an id in the training vocabulary, and the decoding
    table maps that id back to [tag]. *)
Definition tag_round_trips (label_list : list string) (ID2LABEL : gmap Z string)
    (tag : string) : bool :=
  match label2id label_list !! tag with
  | Some i => bool_decide (ID2LABEL !! i = Some tag)
  | None => false
  end.

(** A token that takes no part in the annotation [s, e): it is zero-width
    or carries a special id, or it starts before [s], or at or after [e]. *)
Definition outside (tokenizer : tokenizer_t) (s e : Z) (tok : token) : bool :=
  is_zero_width tok.1 || is_special_id tokenizer tok.2
  || (tok.1.1 <? s) || (e <=? tok.1.1).

(** The tokens, apart from those that [skip] sets aside, tile [a, e): the
    first starts at [a], each has positive width and an ordinary id, each
    next one starts where the one before ends, the last ends at [e]. *)
Fixpoint tiles (tokenizer : tokenizer_t) (skip : Z * Z → bool) (a e : Z)
    (toks : list token) : bool :=
  match toks with
  | [] => a =? e
  | tok :: rest =>
      if skip tok.1 then tiles tokenizer skip a e rest
      else (tok.1.1 =? a) && (a <? tok.1.2)
           && negb (is_special_id tokenizer tok.2)
           && tiles tokenizer skip tok.1.2 e rest
  end.

(** The gold label of a token: what alignment assigns to it. *)
Definition gold_label (tokenizer : tokenizer_t) (l2i : gmap string Z) (o : Z)
    (char_tags : list string) (tok : token) : Z :=
  aligned_label tokenizer l2i o char_tags tok.1 tok.2.

(** One iteration of the decoder on a token and its gold label. *)
Definition gold_step (tokenizer : tokenizer_t) (l2i : gmap string Z)
    (ID2LABEL : gmap Z string) (o : Z) (char_tags : list string)
    (st : decoder_state) (tok : token) : result decoder_state :=
  decode_step ID2LABEL st (tok.1, gold_label tokenizer l2i o char_tags tok).

(** The decoder at position [a] of the annotation that starts at [s]: idle
    at [s], and holding the span [(s, a)] of type [lab] after it; [sp0] is
    what has been emitted. *)
Definition decoder_open_to (s : Z) (lab : string) (sp0 : list span) (a : Z)
    (st : decoder_state) : Prop :=
  spans st = sp0
  ∧ if bool_decide (a = s) then current_label st = None
    else current_label st = Some lab ∧ current_start st = s
         ∧ current_end st = a.

(** ** Sample input lines *)

Definition dquote : string := String (ascii_of_nat 34) EmptyString.

(** The line of a record with id u1, text hi and no entities. *)
Definition sample_line : string :=
  "{" +:+ dquote +:+ "id" +:+ dquote +:+ ": " +:+ dquote +:+ "u1" +:+ dquote
  +:+ ", " +:+ dquote +:+ "text" +:+ dquote +:+ ": " +:+ dquote +:+ "hi"
  +:+ dquote +:+ "}".

(** [json.loads] on the lines used below: [sample_line] is parsed, and a
    lone opening brace, like every other line used, is not valid JSON. *)
Definition sample_json_loads (line : string) : option json_obj :=
  if bool_decide (line = sample_line)
  then Some (JsonObj (Some "u1") (Some "hi") None)
  else None.

(** A model that predicts O (id 0) for every token. *)
Definition sample_model (input_ids attention_mask : list Z) : list Z :=
  (fun _ => 0) <$> input_ids.

(** ** Further notions for the decoder *)

(** The label string that [bio_to_spans] reads for a label id. *)
Definition label_of (ID2LABEL : gmap Z string) (lid : Z) : string :=
  Py.dict_get ID2LABEL lid "O".

(** A token that the loop of [bio_to_spans] gets past: it is skipped, or
    its label is O, or its label has a dash to split at. *)
Definition decodable (ID2LABEL : gmap Z string) (tok : (Z * Z) * Z) : bool :=
  is_zero_zero tok.1
  || bool_decide (label_of ID2LABEL tok.2 = "O")
  || bool_decide (is_Some (Py.split_once "-" (label_of ID2LABEL tok.2))).

(** The entity type that a label id opens or continues: [T] for the labels
    [B-T] and [I-T], nothing for any other label. *)
Definition label_type (ID2LABEL : gmap Z string) (lid : Z) : option string :=
  match Py.split_once "-" (label_of ID2LABEL lid) with
  | Some (p, T) =>
      if bool_decide (p = "B") || bool_decide (p = "I") then Some T else None
  | None => None
  end.

(** The span [sp] is made of tokens of the stream: it starts where a
    decoded token of its type starts and ends where a later (or the same)
    decoded token of its type ends. *)
Definition span_from_tokens (ID2LABEL : gmap Z string)
    (toks : list ((Z * Z) * Z)) (sp : span) : Prop :=
  ∃ (i j : nat) (ti tj : (Z * Z) * Z),
    (i ≤ j)%nat ∧ toks !! i = Some ti ∧ toks !! j = Some tj
    ∧ is_zero_zero ti.1 = false ∧ is_zero_zero tj.1 = false
    ∧ ti.1.1 = span_start sp ∧ tj.1.2 = span_end sp
    ∧ label_type ID2LABEL ti.2 = Some sp.2
    ∧ label_type ID2LABEL tj.2 = Some sp.2.

(** The decoder state [st] with the spans [p] emitted before its own. *)
Definition with_spans (p : list span) (st : decoder_state) : decoder_state :=
  DecoderState (p ++ spans st) (current_label st) (current_start st)
               (current_end st).

(** Two decoder states that differ at most in the unread values of
    [current_start] and [current_end] of an idle decoder. *)
Definition same_view (st1 st2 : decoder_state) : Prop :=
  spans st1 = spans st2 ∧ current_label st1 = current_label st2
  ∧ (current_label st1 ≠ None →
     current_start st1 = current_start st2
     ∧ current_end st1 = current_end st2).

(** A token at which the decoder starts afresh: it is decoded and its label
    is O or a B- label. *)
Definition is_boundary (ID2LABEL : gmap Z string) (tok : (Z * Z) * Z) : bool :=
  negb (is_zero_zero tok.1)
  && (bool_decide (label_of ID2LABEL tok.2 = "O")
      || String.prefix "B-" (label_of ID2LABEL tok.2)).

(** ** Further notions for alignment *)

(** A token on which the alignment loop does not raise: it is zero-width;
    or it has an input id, and that id is special, or O has an id and the
    token's start is no further below zero than the tag array is long. *)
Definition alignable (tokenizer : tokenizer_t) (l2i : gmap string Z)
    (char_tags : list string) (input_ids : list Z) (io : nat * (Z * Z)) : bool :=
  (io.2.1 =? io.2.2)
  || match input_ids !! io.1 with
     | Some tid =>
         is_special_id tokenizer tid
         || (bool_decide (is_Some (l2i !! "O"))
             && (- Py.len char_tags <=? io.2.1))
     | None => false
     end.

(** ** Further notions for the character tags *)

(** Character [i] lies in the range of the annotation [e]. *)
Definition covers (e : entity) (i : nat) : Prop :=
  e_start e ≤ Z.of_nat i < e_end e.

(** The tag that the annotation [e] gives to a character it covers. *)
Definition tag_in (e : entity) (i : nat) : string :=
  if bool_decide (Z.of_nat i = e_start e) then "B-" +:+ e_label e
  else "I-" +:+ e_label e.

(** Any two different valid annotations of the list have ranges apart. *)
Definition pairwise_disjoint (text : string) (es : list entity) : Prop :=
  ∀ a b, a ∈ es → b ∈ es → valid_entity text a → valid_entity text b →
         a = b ∨ e_end a ≤ e_start b ∨ e_end b ≤ e_start a.

(** ** The remaining methods of [PIIDataset] *)

(** [PIIDataset.__len__], on the value of [self.items]. *)
Definition PIIDataset_len (items : list item) : Z := Py.len items.

(** [PIIDataset.__getitem__], on the value of [self.items]. *)
Definition PIIDataset_getitem (items : list item) (idx : Z) : result item :=
  Py.getitem items idx.

(** ** Further notions for the dataset *)

(** The lines that [PIIDataset.__init__] does not skip. *)
Definition nonblank (lines : list string) : list string :=
  filter (fun line => Py.strip line ≠ "") lines.

(** The item [it] is what the line [line] gives: the line parses to a
    record with the item's id and text, the item carries the tokenizer's
    encoding of that text, and it has one label per offset. *)
Definition item_of_line (json_loads : string → option json_obj)
    (tokenizer : tokenizer_t) (max_length : Z) (line : string) (it : item)
    : Prop :=
  ∃ obj,
    json_loads (Py.strip line) = Some obj
    ∧ j_id obj = Some (it_id it)
    ∧ j_text obj = Some (it_text it)
    ∧ it_input_ids it
      = enc_input_ids (tok_call tokenizer true max_length (it_text it))
    ∧ it_attention_mask it
      = enc_attention_mask (tok_call tokenizer true max_length (it_text it))
    ∧ it_offset_mapping it
      = enc_offset_mapping (tok_call tokenizer true max_length (it_text it))
    ∧ length (it_labels it) = length (it_offset_mapping it).

(** The tokenizer pads and truncates every text to [n] tokens. *)
Definition pads_to (tokenizer : tokenizer_t) (max_length : Z) (n : nat) : Prop :=
  ∀ text,
    let enc := tok_call tokenizer true max_length text in
    length (enc_input_ids enc) = n
    ∧ length (enc_attention_mask enc) = n
    ∧ length (enc_offset_mapping enc) = n.

(** The batch as [collate_batch] returns it when nothing is padded. *)
Definition stacked (batch : list item) : batch_out :=
  BatchOut (it_input_ids <$> batch) (it_attention_mask <$> batch)
           (it_labels <$> batch) (it_id <$> batch) (it_text <$> batch)
           (it_offset_mapping <$> batch).

(** A tokenizer that gives every text the same four tokens, the last one
    padding. *)
Definition padding_tokenizer : tokenizer_t :=
  Tokenizer (fun _ _ _ => Encoding [(0, 0); (0, 2); (0, 0); (0, 0)]
                                   [101; 7; 102; 0] [1; 1; 1; 0])
            (Some 101) (Some 102) (Some 0).

(** ** Round trip over tokens with gaps between them *)

(** The tokens, apart from those with offset (0,0), cover [s, e) from end
    to end, gaps between them allowed (a word tokenizer leaves the spaces
    out): the first starts at [s]; each has positive width and an ordinary
    id; each next one starts at or after the end of the one before, and
    before [e]; the last one ends at [e]. [last] is the end of the token
    before, when there is one. *)
Fixpoint spans_range (tokenizer : tokenizer_t) (last : option Z) (s e : Z)
    (toks : list token) : bool :=
  match toks with
  | [] => match last with
          | Some a => a =? e
          | None => false
          end
  | tok :: rest =>
      if is_zero_zero tok.1 then spans_range tokenizer last s e rest
      else match last with
           | Some a => (a <=? tok.1.1) && (tok.1.1 <? e)
           | None => tok.1.1 =? s
           end
           && (tok.1.1 <? tok.1.2)
           && negb (is_special_id tokenizer tok.2)
           && spans_range tokenizer (Some tok.1.2) s e rest
  end.

(** The decoder inside the annotation that starts at [s]: idle before the
    first token, and holding the span [(s, a)] of type [lab] after a token
    that ends at [a]; [sp0] is what has been emitted. *)
Definition decoder_open_upto (s : Z) (lab : string) (sp0 : list span)
    (last : option Z) (st : decoder_state) : Prop :=
  spans st = sp0
  ∧ match last with
    | None => current_label st = None
    | Some a => current_label st = Some lab ∧ current_start st = s
                ∧ current_end st = a ∧ s < a
    end.

(** The inference path after the training path: the spans of the round
    trip, filtered by the validator. *)
Definition round_trip_validated (tokenizer : tokenizer_t)
    (label_list : list string) (ID2LABEL : gmap Z string)
    (label_is_pii : string → bool) (text : string) (entities : list entity)
    (toks : list token) : result (list pred_entity) :=
  raw_spans ← round_trip tokenizer label_list ID2LABEL text entities toks;
  Ok (filter_spans label_is_pii text raw_spans).

(** The utterance of the end-to-end example, its email segment, and its
    words as tokens between the two markers of a sequence. *)
Definition email_text : string :=
  "my email id is j dot smith at example dot com".

Definition email_entity : entity := Entity 15 45 "EMAIL".

Definition email_tokens_before : list token :=
  [((0, 0), 101); ((0, 2), 11); ((3, 8), 12); ((9, 11), 13); ((12, 14), 14)].

Definition email_tokens_inside : list token :=
  [((15, 16), 15); ((17, 20), 16); ((21, 26), 17); ((27, 29), 18);
   ((30, 37), 19); ((38, 41), 16); ((42, 45), 20)].

Definition email_tokens_after : list token := [((0, 0), 102)].

(** * The data generators ([data/data_generate.py], [data/data_generate_2.py]) *)

From Stdlib Require QArith DecimalString DecimalNat.

(** ** More Python string primitives *)

Module PyStr.

(** [sep.join(words)]. *)
Fixpoint join (sep : string) (words : list string) : string :=
  match words with
  | [] => ""
  | w :: rest =>
      match rest with
      | [] => w
      | _ :: _ => w +:+ sep +:+ join sep rest
      end
  end.

Definition starts_with_space (s : string) : bool :=
  match s with
  | String c _ => Py.is_space c
  | EmptyString => false
  end.

(** [s.split()]: the maximal runs of characters that are not whitespace. *)
Fixpoint split (s : string) : list string :=
  match s with
  | EmptyString => []
  | String c s' =>
      if Py.is_space c then split s'
      else if starts_with_space s' then String c "" :: split s'
      else match split s' with
           | w :: ws => String c w :: ws
           | [] => [String c ""]
           end
  end.

(** The scan of [s.replace(old, new)] for a non-empty [old]: [skip]
    characters of a match found before are still to be passed over. *)
Fixpoint replace_from (old new : string) (skip : nat) (s : string) : string :=
  match s with
  | EmptyString => ""
  | String c s' =>
      match skip with
      | S k => replace_from old new k s'
      | O =>
          if String.prefix old s
          then new +:+ replace_from old new (String.length old - 1) s'
          else String c (replace_from old new 0 s')
      end
  end.

Fixpoint around_each (new s : string) : string :=
  match s with
  | EmptyString => ""
  | String c s' => String c (new +:+ around_each new s')
  end.

(** [s.replace(old, new)]: every occurrence of [old], found from left to
    right without overlap; for the empty [old], [new] before every
    character and at the end. *)
Definition replace (old new s : string) : string :=
  match old with
  | EmptyString => new +:+ around_each new s
  | String _ _ => replace_from old new 0 s
  end.

(** The characters of the class [[.,\-\(\)]]. *)
Definition is_punct (c : ascii) : bool :=
  existsb (Ascii.eqb c) ["."; ","; "-"; "("; ")"]%char.

(** [re.sub(r"[.,\-\(\)]", " ", s)]. *)
Fixpoint sub_punct (s : string) : string :=
  match s with
  | EmptyString => ""
  | String c s' => String (if is_punct c then " "%char else c) (sub_punct s')
  end.

(** [int(char)] for a digit character. *)
Definition digit_value (c : ascii) : Z := Z.of_nat (nat_of_ascii c - 48).



(** [l.insert(i, x)]: before position [i], counted from the end when
    negative, at an end when out of range. *)
Definition insert {A : Type} (l : list A) (i : Z) (x : A) : list A :=
  let j := if i <? 0 then Z.max 0 (i + Py.len l) else Z.min i (Py.len l) in
  take (Z.to_nat j) l ++ x :: drop (Z.to_nat j) l.

End PyStr.

(** ** The random generator and the faker *)

(** The module [random], an external collaborator, as a state-passing
    oracle. A float drawn by [random.random()] is only ever compared with
    literals, so it is kept abstract with that comparison. *)
Record random_t : Type := RandomOps {
  rng : Type;
  flt : Type;
  random_random : rng → flt * rng;
  flt_lt : flt → QArith_base.Q → bool;
  random_below : nat → rng → nat * rng
}.

(** What a generator function may raise, and its outcome. *)
Inductive gen_exn : Type :=
  | GenIndexError
  | GenValueError
  | GenUnboundLocalError.

Inductive outcome (A : Type) : Type :=
  | Returns (a : A)
  | Fails (e : gen_exn).
Arguments Returns {A} a.
Arguments Fails {A} e.

(** A generator: a computation on the state of [random] that may raise. *)
Definition gen (R : random_t) (A : Type) : Type := rng R → outcome (A * rng R).

Definition gen_ret {R : random_t} {A : Type} (a : A) : gen R A :=
  fun g => Returns (a, g).

Definition gen_bind {R : random_t} {A B : Type} (m : gen R A)
    (k : A → gen R B) : gen R B :=
  fun g => match m g with
           | Returns (a, g') => k a g'
           | Fails e => Fails e
           end.

Notation "x ←$ m ; k" := (gen_bind m (fun x => k))
  (at level 20, m at level 100, k at level 200, only parsing).

(** [c and random.random() < p]: the float is drawn only when [c] holds. *)
Definition and_random_lt {R : random_t} (c : bool) (p : QArith_base.Q)
    : gen R bool :=
  fun g => if c then let '(x, g') := random_random R g in
                     Returns (flt_lt R x p, g')
           else Returns (false, g).

(** [random.random() < p]. *)
Definition random_lt {R : random_t} (p : QArith_base.Q) : gen R bool :=
  and_random_lt true p.

(** [random.choice(seq)]: some element of a non-empty sequence. *)
Definition random_choice {R : random_t} {A : Type} (seq : list A) : gen R A :=
  fun g =>
    let '(k, g') := random_below R (length seq) g in
    match seq !! (k mod length seq)%nat with
    | Some x => Returns (x, g')
    | None => Fails GenIndexError
    end.

(** [random.randint(a, b)]: some integer of [a..b], both included. *)
Definition random_randint {R : random_t} (a b : Z) : gen R Z :=
  fun g =>
    if b <? a then Fails GenValueError
    else
      let n := Z.to_nat (b - a + 1) in
      let '(k, g') := random_below R n g in
      Returns (a + Z.of_nat (k mod n), g').

(** The Faker instance [fake], an external collaborator with a state of
    its own: the methods that the generators call. *)
Record faker_t : Type := FakerOps {
  faker : Type;
  fake_credit_card_number : faker → string * faker;
  fake_phone_number : faker → string * faker;
  fake_email : faker → string * faker;
  fake_name : faker → string * faker;
  fake_first_name : faker → string * faker;
  fake_date : faker → string * faker;
  fake_city : faker → string * faker;
  fake_state : faker → string * faker
}.

(** The threshold literals. *)
Definition q (num : Z) (den : positive) : QArith_base.Q :=
  QArith_base.Qmake num den.

(** The loop [for char in text] of [apply_stt_noise], shared in form by
    both files: a digit is spelled out with [num2words] when the draw is
    below [p], and every other character is kept. *)
Fixpoint spell_digits {R : random_t} (num2words : Z → string)
    (p : QArith_base.Q) (text : string) (words : list string)
    : gen R (list string) :=
  match text with
  | EmptyString => gen_ret words
  | String char rest =>
      if Py.is_digit char then
        spell ←$ random_lt p;
        spell_digits num2words p rest
          (words ++ [if spell : bool then num2words (PyStr.digit_value char)
                     else String char ""])
      else spell_digits num2words p rest (words ++ [String char ""])
  end.

(** ** data_generate.py *)

Module DataGenerate.
Section with_collaborators.

Context (R : random_t) (F : faker_t) (num2words : Z → string).

Definition apply_stt_noise (text : string) (label : option string)
    : gen R string :=
  let text := Py.lower text in
  let text := if bool_decide (label = Some "EMAIL")
              then PyStr.replace "." " dot " (PyStr.replace "@" " at " text)
              else text in
  text ←$ (if bool_decide (label ∈ [Some "CREDIT_CARD"; Some "PHONE";
                                     Some "DATE"])
              || has_digit text
           then
             let text := PyStr.replace "+91" "plus nine one" text in
             words ←$ spell_digits num2words (q 8 10) text [];
             gen_ret (PyStr.join " " words)
           else gen_ret text);
  let text := PyStr.sub_punct text in
  gen_ret (PyStr.join " " (PyStr.split text)).




End with_collaborators.
End DataGenerate.

(** ** data_generate_2.py *)

Module DataGenerate2.

Definition FILLERS : list string :=
  ["um"; "uh"; "like"; "actually"; "wait"; "i mean"; "sorry"].

Definition INTROS : list string :=
  ["can you note that"; "please write down"; "i said"; "the details are";
   "it is"; "check this"; "verify"; "identifying as"; "record shows";
   "kindly update"; "change it to"].

Definition HOMOPHONES : gmap string string :=
  list_to_map
    [("mail", "male"); ("to", "too"); ("two", "to"); ("for", "four");
     ("eight", "ate"); ("i", "eye"); ("see", "sea"); ("meet", "meat");
     ("know", "no"); ("right", "write"); ("buy", "bye"); ("hi", "high")].

Section with_collaborators.

Context (R : random_t) (F : faker_t) (num2words : Z → string).

(** The body of the loop of [apply_homophone_noise]: the word appended.
    The float is drawn only for a word that [HOMOPHONES] holds. *)
Definition homophone_word (word : string) : gen R string :=
  match HOMOPHONES !! word with
  | Some other =>
      swap ←$ random_lt (q 2 10);
      gen_ret (if swap : bool then other else word)
  | None => gen_ret word
  end.

(** A loop that appends one word for each word read. *)
Fixpoint each_word (body : string → gen R string) (words new_words : list string)
    : gen R (list string) :=
  match words with
  | [] => gen_ret new_words
  | word :: rest =>
      w ←$ body word;
      each_word body rest (new_words ++ [w])
  end.

Definition apply_homophone_noise (text : string) : gen R string :=
  let words := PyStr.split text in
  new_words ←$ each_word homophone_word words [];
  gen_ret (PyStr.join " " new_words).

(** The body of the loop of [apply_indian_phonetic_noise]. *)
Definition phonetic_word (word : string) : gen R string :=
  if Py.str_len word <? 3 then gen_ret word
  else
    vw ←$ and_random_lt (Py.contains "v" word) (q 15 100);
    word ←$ (if vw : bool then gen_ret (PyStr.replace "v" "w" word)
             else
               wv ←$ and_random_lt (Py.contains "w" word) (q 15 100);
               gen_ret (if wv : bool then PyStr.replace "w" "v" word
                        else word));
    sh ←$ and_random_lt (Py.contains "sh" word) (q 15 100);
    word ←$ (if sh : bool then gen_ret (PyStr.replace "sh" "s" word)
             else
               s ←$ and_random_lt (Py.contains "s" word) (q 15 100);
               gen_ret (if s : bool then PyStr.replace "s" "sh" word
                        else word));
    ph ←$ and_random_lt (Py.contains "ph" word) (q 2 10);
    let word := if ph : bool then PyStr.replace "ph" "f" word else word in
    z ←$ and_random_lt (Py.contains "z" word) (q 15 100);
    let word := if z : bool then PyStr.replace "z" "j" word else word in
    gen_ret word.

Definition apply_indian_phonetic_noise (text : string) : gen R string :=
  let words := PyStr.split text in
  new_words ←$ each_word phonetic_word words [];
  gen_ret (PyStr.join " " new_words).

Definition apply_stt_noise (text : string) (label : option string)
    : gen R string :=
  let text := Py.lower text in
  filler ←$ and_random_lt (bool_decide (label = None)
                           && (3 <? Py.len (PyStr.split text)))
                          (q 25 100);
  text ←$ (if filler : bool then
             let words := PyStr.split text in
             insert_idx ←$ random_randint 1 (Py.len words - 1);
             word ←$ random_choice FILLERS;
             let words := PyStr.insert words insert_idx word in
             gen_ret (PyStr.join " " words)
           else gen_ret text);
  text ←$ apply_indian_phonetic_noise text;
  text ←$ apply_homophone_noise text;
  let text := if bool_decide (label = Some "EMAIL")
              then PyStr.replace "." " dot " (PyStr.replace "@" " at " text)
              else text in
  text ←$ (if bool_decide (label ∈ [Some "CREDIT_CARD"; Some "PHONE";
                                     Some "DATE"])
              || has_digit text
           then
             let text := PyStr.replace "+91" "plus nine one" text in
             words ←$ spell_digits num2words (q 7 10) text [];
             gen_ret (PyStr.join " " words)
           else gen_ret text);
  let text := PyStr.sub_punct text in
  gen_ret (PyStr.join " " (PyStr.split text)).

(** The [if]/[elif] chain on [label]; when no branch is taken [entity] is
    unbound at the [return]. *)
Definition fake_entity (label : string) (fk : faker F)
    : option (string * faker F) :=
  if bool_decide (label = "CREDIT_CARD") then Some (fake_credit_card_number F fk)
  else if bool_decide (label = "PHONE") then Some (fake_phone_number F fk)
  else if bool_decide (label = "EMAIL") then Some (fake_email F fk)
  else if bool_decide (label = "PERSON_NAME") then Some (fake_name F fk)
  else if bool_decide (label = "DATE") then Some (fake_date F fk)
  else if bool_decide (label = "CITY") then Some (fake_city F fk)
  else None.

Definition get_base_data (fk : faker F)
    : gen R ((string * string * string * string) * faker F) :=
  label ←$ random_choice ["CREDIT_CARD"; "PHONE"; "EMAIL"; "PERSON_NAME";
                          "DATE"; "CITY"];
  let entity_fk := fake_entity label fk in
  fun g =>
    let '(structure_roll, g) := random_random R g in
    (ps ←$ (if flt_lt R structure_roll (q 6 10) then
              intro ←$ random_choice INTROS;
              prefix ←$ random_choice
                          ["my " +:+ PyStr.replace "_" " " (Py.lower label)
                           +:+ " is";
                           intro; "the value is"; "it is"; "update"];
              gen_ret (prefix, "")
            else if flt_lt R structure_roll (q 8 10) then
              suffix ←$ random_choice
                          ["is the correct one"; "is my details";
                           "please verify"; "is what i said"; "right"];
              gen_ret ("", suffix)
            else
              prefix ←$ random_choice ["so"; "and"; "well"; "okay"];
              suffix ←$ random_choice ["is fine"; "looks good"; "correct?"];
              gen_ret (prefix, suffix));
     let '(prefix, suffix) := ps in
     match entity_fk with
     | Some (entity, fk) => gen_ret ((prefix, entity, suffix, label), fk)
     | None => fun _ => Fails GenUnboundLocalError
     end) g.


End with_collaborators.
End DataGenerate2.

(** ** Notions for the generators *)






Definition sample_faker : faker_t :=
  FakerOps nat (fun f => ("4242 4242 4242 4242", S f))
           (fun f => ("+91 98765-43210", S f))
           (fun f => ("Alice.Smith@Example.com", S f))
           (fun f => ("Ravi Kumar", S f)) (fun f => ("Ravi", S f))
           (fun f => ("2020-01-05", S f)) (fun f => ("Pune", S f))
           (fun f => ("Goa", S f)).




(** * Properties *)

(** ** Loops *)

Lemma for_each_app {A S : Type} (body : S → A → result S) (st : S)
    (xs ys : list A) :
  for_each body st (xs ++ ys)
  = (st' ← for_each body st xs; for_each body st' ys).
Proof.
  revert st. induction xs as [|x xs IH]; intros st; simpl; [done|].
  destruct (body st x) as [st1|err]; simpl; [apply IH | done].
Qed.

Lemma for_each_cons {A S : Type} (body : S → A → result S) (st : S) (x : A)
    (xs : list A) :
  for_each body st (x :: xs) = (st' ← body st x; for_each body st' xs).
Proof. done. Qed.

Lemma bind_Ok {A B : Type} (f : A → result B) (a : A) : (Ok a ≫= f) = f a.
Proof. done. Qed.

Lemma for_each_snoc {A S : Type} (body : S → A → result S) (st : S)
    (xs : list A) (x : A) :
  for_each body st (xs ++ [x])
  = (st' ← for_each body st xs; body st' x).
Proof.
  rewrite for_each_app. destruct (for_each body st xs) as [st1|err]; simpl;
    [|done].
  by destruct (body st1 x).
Qed.

(** ** Python lists *)

Lemma setitem_in_range {A : Type} (l : list A) (i : Z) (x : A) :
  0 ≤ i < Py.len l → Py.setitem l i x = Ok (<[Z.to_nat i := x]> l).
Proof.
  intros Hi. unfold Py.setitem.
  destruct (Z.ltb_spec i 0); [lia|].
  destruct (Z.ltb_spec i 0); [lia|].
  destruct (Z.leb_spec (Py.len l) i); [lia|]. done.
Qed.

Lemma getitem_in_range {A : Type} (l : list A) (i : Z) (x : A) :
  0 ≤ i → l !! Z.to_nat i = Some x → Py.getitem l i = Ok x.
Proof.
  intros Hi Hx. unfold Py.getitem.
  apply lookup_lt_Some in Hx as Hlt.
  destruct (Z.ltb_spec i 0); [lia|].
  destruct (Z.ltb_spec i 0); [lia|].
  destruct (Z.leb_spec (Py.len l) i); [unfold Py.len in *; lia|].
  by rewrite Hx.
Qed.

(** ** CharTagger *)

Lemma paint_inside (lab : string) (k : nat) :
  ∀ (a : Z) (tags : list string),
    0 ≤ a → a + Z.of_nat k ≤ Py.len tags →
    ∃ tags',
      for_each (fun t i => Py.setitem t i ("I-" +:+ lab)) tags
               (seqZ a (Z.of_nat k)) = Ok tags'
      ∧ length tags' = length tags
      ∧ ∀ i : nat,
          tags' !! i = if bool_decide (a ≤ Z.of_nat i < a + Z.of_nat k)
                       then Some ("I-" +:+ lab) else tags !! i.
Proof.
  induction k as [|k IH]; intros a tags Ha Hlen.
  - exists tags. split; [done|]. split; [done|].
    intros i. rewrite bool_decide_eq_false_2; [done | lia].
  - rewrite seqZ_cons by lia. simpl.
    rewrite setitem_in_range by lia. simpl.
    destruct (IH (Z.succ a) (<[Z.to_nat a := "I-" +:+ lab]> tags))
      as (tags' & Hrun & Hl & Hget).
    { lia. }
    { unfold Py.len in *. rewrite length_insert. lia. }
    exists tags'. replace (Z.pred (Z.of_nat (S k))) with (Z.of_nat k) by lia.
    split; [exact Hrun|]. split; [by rewrite Hl, length_insert|].
    intros i. rewrite Hget.
    destruct (decide (Z.of_nat i = a)) as [Heq|Hne].
    + rewrite bool_decide_eq_false_2 by lia.
      rewrite bool_decide_eq_true_2 by lia.
      replace (Z.to_nat a) with i by lia.
      apply list_lookup_insert_eq. unfold Py.len in *. lia.
    + rewrite list_lookup_insert_ne by lia.
      destruct (decide (Z.succ a ≤ Z.of_nat i < Z.succ a + Z.of_nat k)).
      * rewrite !bool_decide_eq_true_2 by lia. done.
      * rewrite !bool_decide_eq_false_2 by lia. done.
Qed.

Lemma tag_entity_invalid (text : string) (tags : list string) (e : entity) :
  ¬ valid_entity text e → tag_entity text tags e = Ok tags.
Proof.
  unfold valid_entity, tag_entity. intros Hinv.
  destruct (Z.ltb_spec (e_start e) 0); [done|].
  destruct (Z.gtb_spec (e_end e) (Py.str_len text)); [done|].
  destruct (Z.geb_spec (e_start e) (e_end e)); [done|]. lia.
Qed.

Lemma tag_entity_valid (text : string) (tags : list string) (e : entity) :
  valid_entity text e → length tags = String.length text →
  ∃ tags', tag_entity text tags e = Ok tags'
           ∧ length tags' = length tags
           ∧ ∀ i : nat, tags' !! i = painted e i (tags !! i).
Proof.
  unfold valid_entity, tag_entity, Py.str_len. intros (H0 & Hlt & Hle) Hlen.
  destruct (Z.ltb_spec (e_start e) 0); [lia|].
  destruct (Z.gtb_spec (e_end e) (Z.of_nat (String.length text))); [lia|].
  destruct (Z.geb_spec (e_start e) (e_end e)); [lia|]. simpl.
  rewrite setitem_in_range by (unfold Py.len; lia). simpl.
  unfold Py.range.
  destruct (paint_inside (e_label e) (Z.to_nat (e_end e - (e_start e + 1)))
              (e_start e + 1)
              (<[Z.to_nat (e_start e) := "B-" +:+ e_label e]> tags))
    as (tags' & Hrun & Hl & Hget).
  { lia. }
  { unfold Py.len. rewrite length_insert. lia. }
  rewrite Z2Nat.id in Hrun by lia.
  exists tags'. split; [exact Hrun|]. split; [by rewrite Hl, length_insert|].
  intros i. rewrite Hget. unfold painted.
  destruct (decide (Z.of_nat i = e_start e)) as [Heq|Hne].
  - rewrite bool_decide_eq_false_2 by lia.
    rewrite (bool_decide_eq_true_2 (Z.of_nat i = e_start e)) by done.
    replace (Z.to_nat (e_start e)) with i by lia.
    apply list_lookup_insert_eq. lia.
  - rewrite (bool_decide_eq_false_2 (Z.of_nat i = e_start e)) by done.
    rewrite list_lookup_insert_ne by lia.
    destruct (decide (e_start e < Z.of_nat i < e_end e)).
    + rewrite !bool_decide_eq_true_2 by lia. done.
    + rewrite !bool_decide_eq_false_2 by lia. done.
Qed.

Lemma build_char_tags_total (text : string) (entities : list entity) :
  ∃ tags, build_char_tags text entities = Ok tags
          ∧ length tags = String.length text.
Proof.
  unfold build_char_tags.
  induction entities as [|e es IH] using rev_ind.
  - eexists. split; [done|]. unfold Py.repeat, Py.str_len.
    rewrite length_replicate. lia.
  - destruct IH as (tags & Hrun & Hlen).
    rewrite for_each_snoc, Hrun. simpl.
    destruct (decide (valid_entity text e)) as [Hv|Hv].
    + destruct (tag_entity_valid text tags e Hv Hlen) as (t' & -> & Hl & _).
      exists t'. split; [done | congruence].
    + rewrite tag_entity_invalid by done. eauto.
Qed.

(** C6. CharTagger: the tag array has the length of the text and starts
    all-O; annotations are applied in list order, a valid one writing
    B-label at its start and I-label strictly inside it over whatever the
    earlier ones left, an invalid one changing nothing; no annotation list
    makes it raise. *)
Theorem char_tagger_applies_in_order (text : string) :
  build_char_tags text [] = Ok (replicate (String.length text) "O")
  ∧ ∀ (entities : list entity) (e : entity),
      ∃ tags tags',
        build_char_tags text entities = Ok tags
        ∧ build_char_tags text (entities ++ [e]) = Ok tags'
        ∧ length tags = String.length text
        ∧ length tags' = String.length text
        ∧ (valid_entity text e →
           ∀ i : nat, tags' !! i = painted e i (tags !! i))
        ∧ (¬ valid_entity text e → tags' = tags).
Proof.
  split.
  - unfold build_char_tags, Py.repeat, Py.str_len. simpl.
    by rewrite Nat2Z.id.
  - intros entities e.
    destruct (build_char_tags_total text entities) as (tags & Hrun & Hlen).
    exists tags. unfold build_char_tags in *.
    rewrite for_each_snoc, Hrun. simpl.
    destruct (decide (valid_entity text e)) as [Hv|Hv].
    + destruct (tag_entity_valid text tags e Hv Hlen) as (t' & -> & Hl & Hget).
      exists t'. split_and!; [done | done | done | congruence | done | intros; contradiction].
    + rewrite tag_entity_invalid by done.
      exists tags. split_and!; [done | done | done | done | intros; contradiction | done].
Qed.

(** ** TokenLabelAligner *)

Lemma token_label_spec (tokenizer : tokenizer_t) (l2i : gmap string Z) (o : Z)
    (char_tags : list string) (input_ids : list Z) (idx : nat) (off : Z * Z)
    (tid : Z) :
  l2i !! "O" = Some o →
  input_ids !! idx = Some tid →
  0 ≤ off.1 →
  token_label tokenizer l2i char_tags input_ids idx off
  = Ok (aligned_label tokenizer l2i o char_tags off tid).
Proof.
  intros Ho Htid Hpos. destruct off as [s e]. simpl in Hpos.
  unfold token_label, aligned_label. simpl.
  assert (Py.getitem input_ids (Z.of_nat idx) = Ok tid) as Hget.
  { apply getitem_in_range; [lia|]. by rewrite Nat2Z.id. }
  assert (Py.dict_getitem l2i "O" = Ok o) as HO.
  { unfold Py.dict_getitem. by rewrite Ho. }
  destruct (Z.eqb_spec s e) as [->|Hne].
  - simpl. by rewrite bool_decide_eq_true_2.
  - rewrite Hget. simpl. rewrite (bool_decide_eq_false_2 (s = e)) by done.
    simpl. destruct (is_special_id tokenizer tid); [done|].
    destruct (Z.ltb_spec s (Py.len char_tags)) as [Hlt|Hge].
    + rewrite bool_decide_eq_true_2 by done.
      destruct (char_tags !! Z.to_nat s) as [tag|] eqn:Htag.
      * rewrite (getitem_in_range _ _ tag) by done. simpl. by rewrite HO.
      * apply lookup_ge_None in Htag. unfold Py.len in Hlt. lia.
    + rewrite bool_decide_eq_false_2 by lia. exact HO.
Qed.

Lemma align_bio_tags_spec (tokenizer : tokenizer_t) (l2i : gmap string Z)
    (o : Z) (char_tags : list string) (input_ids : list Z)
    (offsets : list (Z * Z)) :
  l2i !! "O" = Some o →
  (length offsets ≤ length input_ids)%nat →
  Forall (fun off => 0 ≤ off.1) offsets →
  ∃ bio_tags,
    align_bio_tags tokenizer l2i char_tags offsets input_ids = Ok bio_tags
    ∧ length bio_tags = length offsets
    ∧ ∀ (idx : nat) (off : Z * Z) (tid : Z),
        offsets !! idx = Some off → input_ids !! idx = Some tid →
        bio_tags !! idx
        = Some (aligned_label tokenizer l2i o char_tags off tid).
Proof.
  intros Ho. unfold align_bio_tags.
  induction offsets as [|off offs IH] using rev_ind; intros Hlen Hpos.
  - exists []. split; [done|]. split; [done|]. intros idx off tid H. done.
  - rewrite length_app in Hlen. simpl in Hlen.
    apply Forall_app in Hpos as [Hpos Hoff].
    destruct IH as (tags & Hrun & Hl & Hget); [lia | done |].
    rewrite imap_app. cbn [imap]. rewrite for_each_snoc, Hrun. simpl.
    destruct (lookup_lt_is_Some_2 input_ids (length offs)) as [tid Htid];
      [lia|].
    rewrite Nat.add_0_r.
    rewrite (token_label_spec _ _ o _ _ _ _ tid);
      [|done|done|by inversion Hoff].
    simpl. eexists. split; [done|]. split.
    { rewrite !length_app. simpl. lia. }
    intros idx off' tid' Hoff' Htid'.
    destruct (decide (idx < length offs)%nat) as [Hlt|Hge].
    + rewrite lookup_app_l in Hoff' by done.
      rewrite lookup_app_l by lia. eauto.
    + apply lookup_lt_Some in Hoff' as Hb. rewrite length_app in Hb.
      simpl in Hb. assert (idx = length offs) as -> by lia.
      rewrite list_lookup_middle in Hoff' by done.
      rewrite list_lookup_middle by done. congruence.
Qed.

(** C3 (amended). Token-to-label alignment: when O is in the vocabulary,
    the tokenizer gives one id per offset and the offsets are non-negative,
    alignment returns one label per token: the ignore sentinel -100 for a
    token with start = end or whose input id is the CLS, SEP or PAD id;
    otherwise the id of the tag of the token's first character when
    start < len(char_tags), O's id when that tag is not in the vocabulary;
    otherwise O's id. *)
Theorem alignment_first_character_wins (tokenizer : tokenizer_t)
    (l2i : gmap string Z) (o : Z) (char_tags : list string)
    (offsets : list (Z * Z)) (input_ids : list Z) :
  l2i !! "O" = Some o →
  length input_ids = length offsets →
  Forall (fun off => 0 ≤ off.1) offsets →
  ∃ bio_tags,
    align_bio_tags tokenizer l2i char_tags offsets input_ids = Ok bio_tags
    ∧ length bio_tags = length offsets
    ∧ ∀ (idx : nat) (off : Z * Z) (tid : Z),
        offsets !! idx = Some off → input_ids !! idx = Some tid →
        bio_tags !! idx
        = Some (aligned_label tokenizer l2i o char_tags off tid).
Proof.
  intros Ho Hlen Hpos. apply align_bio_tags_spec; [done | lia | done].
Qed.

Lemma alignment_first_character_wins_witness :
  ∃ bio_tags,
    align_bio_tags sample_tokenizer (label2id sample_labels)
                   ["B-PHONE"; "I-PHONE"; "O"] [(0, 0); (0, 2); (2, 3); (0, 0)]
                   [101; 7; 8; 102] = Ok bio_tags
    ∧ length bio_tags = 4%nat
    ∧ ∀ (idx : nat) (off : Z * Z) (tid : Z),
        [(0, 0); (0, 2); (2, 3); (0, 0)] !! idx = Some off →
        [101; 7; 8; 102] !! idx = Some tid →
        bio_tags !! idx
        = Some (aligned_label sample_tokenizer (label2id sample_labels) 0
                              ["B-PHONE"; "I-PHONE"; "O"] off tid).
Proof.
  apply (alignment_first_character_wins sample_tokenizer
           (label2id sample_labels) 0 ["B-PHONE"; "I-PHONE"; "O"]
           [(0, 0); (0, 2); (2, 3); (0, 0)] [101; 7; 8; 102]).
  - vm_compute. reflexivity.
  - reflexivity.
  - repeat constructor; simpl; lia.
Defined.

(** C3, as stated, fails: a token of non-zero width whose input id is the
    SEP id is given -100, not the label of its first character. *)
Lemma alignment_by_offsets_alone_fails :
  align_bio_tags sample_tokenizer (label2id sample_labels)
                 ["O"; "O"; "O"; "O"; "O"] [(0, 5)] [102] = Ok [-100]
  ∧ offset_label (label2id sample_labels) 0 ["O"; "O"; "O"; "O"; "O"] (0, 5)
    = 0.
Proof. split; vm_compute; reflexivity. Qed.

(** ** SpanDecoder: single transitions *)

Lemma decode_step_skip (ID2LABEL : gmap Z string) (st : decoder_state) (lid : Z) :
  decode_step ID2LABEL st ((0, 0), lid) = Ok st.
Proof. done. Qed.

Lemma decode_step_B (ID2LABEL : gmap Z string) (st : decoder_state)
    (start end_ lid : Z) (T : string) :
  ¬ (start = 0 ∧ end_ = 0) →
  ID2LABEL !! lid = Some ("B-" +:+ T) →
  decode_step ID2LABEL st ((start, end_), lid)
  = Ok (DecoderState (emit_open st) (Some T) start end_).
Proof.
  intros Hne Hl. unfold decode_step, Py.dict_get. rewrite Hl. simpl.
  destruct (Z.eqb_spec start 0), (Z.eqb_spec end_ 0); simpl; done || lia.
Qed.

Lemma decode_step_I_other (ID2LABEL : gmap Z string) (st : decoder_state)
    (start end_ lid : Z) (T : string) :
  ¬ (start = 0 ∧ end_ = 0) →
  ID2LABEL !! lid = Some ("I-" +:+ T) →
  current_label st ≠ Some T →
  decode_step ID2LABEL st ((start, end_), lid)
  = Ok (DecoderState (emit_open st) (Some T) start end_).
Proof.
  intros Hne Hl Hcur. unfold decode_step, Py.dict_get. rewrite Hl. simpl.
  rewrite (bool_decide_eq_false_2 (current_label st = Some T)) by done.
  destruct (Z.eqb_spec start 0), (Z.eqb_spec end_ 0); simpl; done || lia.
Qed.

Lemma decode_step_I_same (ID2LABEL : gmap Z string) (st : decoder_state)
    (start end_ lid : Z) (T : string) :
  ¬ (start = 0 ∧ end_ = 0) →
  ID2LABEL !! lid = Some ("I-" +:+ T) →
  current_label st = Some T →
  decode_step ID2LABEL st ((start, end_), lid)
  = Ok (DecoderState (spans st) (Some T) (current_start st) end_).
Proof.
  intros Hne Hl Hcur. unfold decode_step, Py.dict_get. rewrite Hl. simpl.
  rewrite (bool_decide_eq_true_2 (current_label st = Some T)) by done.
  rewrite Hcur.
  destruct (Z.eqb_spec start 0), (Z.eqb_spec end_ 0); simpl; done || lia.
Qed.

Lemma decode_step_O (ID2LABEL : gmap Z string) (st : decoder_state)
    (start end_ lid : Z) :
  Py.dict_get ID2LABEL lid "O" = "O" →
  decode_step ID2LABEL st ((start, end_), lid)
  = Ok (if (start =? 0) && (end_ =? 0) then st
        else DecoderState (emit_open st) None (current_start st)
                          (current_end st)).
Proof.
  intros Hl. unfold decode_step. rewrite Hl. simpl.
  by destruct ((start =? 0) && (end_ =? 0)).
Qed.

(** C4. BIO leniency: an I-T label met while no span is open, or while a
    span of another type is open, makes the same transition as B-T: the
    open span, if any, is emitted and a span of type T is opened at the
    token. The sequence [(0,3) I-PHONE; (4,6) I-PHONE] decodes to the single
    span (0,6) labeled PHONE. *)
Theorem leniency_I_as_B (ID2LABEL : gmap Z string) (st : decoder_state)
    (start end_ i_id b_id p_id : Z) (T text : string) :
  ID2LABEL !! i_id = Some ("I-" +:+ T) →
  ID2LABEL !! b_id = Some ("B-" +:+ T) →
  ID2LABEL !! p_id = Some "I-PHONE" →
  current_label st ≠ Some T →
  decode_step ID2LABEL st ((start, end_), i_id)
  = decode_step ID2LABEL st ((start, end_), b_id)
  ∧ (¬ (start = 0 ∧ end_ = 0) →
     decode_step ID2LABEL st ((start, end_), i_id)
     = Ok (DecoderState (emit_open st) (Some T) start end_))
  ∧ bio_to_spans ID2LABEL text [(0, 3); (4, 6)] [p_id; p_id]
    = Ok [(0, 6, "PHONE")].
Proof.
  intros Hi Hb Hp Hcur. split_and!.
  - destruct (decide (start = 0 ∧ end_ = 0)) as [[-> ->]|Hne]; [done|].
    by rewrite (decode_step_I_other _ _ _ _ _ T), (decode_step_B _ _ _ _ _ T).
  - intros Hne. by apply decode_step_I_other.
  - unfold bio_to_spans, Py.zip. cbn [zip_with]. rewrite !for_each_cons.
    rewrite (decode_step_I_other _ _ _ _ _ "PHONE"); [|lia|done|done].
    rewrite bind_Ok. cbn beta. rewrite for_each_cons.
    rewrite (decode_step_I_same _ _ _ _ _ "PHONE"); [|lia|done|done].
    done.
Qed.

Lemma leniency_I_as_B_witness :
  decode_step sample_ID2LABEL decoder_init ((0, 3), 2)
  = decode_step sample_ID2LABEL decoder_init ((0, 3), 1)
  ∧ (¬ (0 = 0 ∧ 3 = 0) →
     decode_step sample_ID2LABEL decoder_init ((0, 3), 2)
     = Ok (DecoderState (emit_open decoder_init) (Some "PHONE") 0 3))
  ∧ bio_to_spans sample_ID2LABEL "call me" [(0, 3); (4, 6)] [2; 2]
    = Ok [(0, 6, "PHONE")].
Proof.
  apply (leniency_I_as_B sample_ID2LABEL decoder_init 0 3 2 1 2 "PHONE"
           "call me").
  - vm_compute. reflexivity.
  - vm_compute. reflexivity.
  - vm_compute. reflexivity.
  - simpl. discriminate.
Defined.

(** C5 (amended). Structural-token skip in the decoder: a token with offset
    (0,0) is skipped whatever its predicted label: the state is unchanged,
    and decoding a stream gives the same spans as decoding it with the
    token removed. *)
Theorem decoder_skips_zero_zero (ID2LABEL : gmap Z string) (st : decoder_state)
    (text : string) (offs1 offs2 : list (Z * Z)) (lids1 lids2 : list Z)
    (lid : Z) :
  length offs1 = length lids1 →
  decode_step ID2LABEL st ((0, 0), lid) = Ok st
  ∧ bio_to_spans ID2LABEL text (offs1 ++ (0, 0) :: offs2)
                 (lids1 ++ lid :: lids2)
    = bio_to_spans ID2LABEL text (offs1 ++ offs2) (lids1 ++ lids2).
Proof.
  intros Hlen. split; [done|]. unfold bio_to_spans, Py.zip.
  rewrite !zip_with_app by done. simpl.
  rewrite !for_each_app.
  destruct (for_each _ decoder_init _) as [st1|err]; simpl; done.
Qed.

Lemma decoder_skips_zero_zero_witness :
  decode_step sample_ID2LABEL decoder_init ((0, 0), 1) = Ok decoder_init
  ∧ bio_to_spans sample_ID2LABEL "abcdef" ([(0, 3)] ++ (0, 0) :: [(3, 6)])
                 ([1] ++ 1 :: [2])
    = bio_to_spans sample_ID2LABEL "abcdef" ([(0, 3)] ++ [(3, 6)])
                   ([1] ++ [2]).
Proof.
  apply (decoder_skips_zero_zero sample_ID2LABEL decoder_init "abcdef"
           [(0, 3)] [(3, 6)] [1] [2] 1).
  reflexivity.
Defined.

(** C5, as stated, fails: a zero-width token with offset (3,3) is not
    skipped. Labeled B it opens a span of its own, and labeled O between
    two tokens of one entity it makes the open span be emitted. *)
Lemma decoder_processes_zero_width :
  bio_to_spans sample_ID2LABEL "abcdef" [(3, 3)] [1] = Ok [(3, 3, "PHONE")]
  ∧ bio_to_spans sample_ID2LABEL "abcdef" [(0, 3); (3, 3); (3, 6)] [1; 0; 2]
    = Ok [(0, 3, "PHONE"); (3, 6, "PHONE")]
  ∧ bio_to_spans sample_ID2LABEL "abcdef" [(0, 3); (3, 6)] [1; 2]
    = Ok [(0, 6, "PHONE")].
Proof. split_and!; vm_compute; reflexivity. Qed.

(** ** SpanDecoder: order and non-overlap *)

Lemma disjoint_sorted_nil : disjoint_sorted [].
Proof. intros i j a b _ H. done. Qed.

Lemma disjoint_sorted_snoc (l : list span) (x : span) :
  disjoint_sorted (l ++ [x])
  ↔ disjoint_sorted l
    ∧ ∀ a, a ∈ l → span_end a ≤ span_start x ∧ span_start a ≤ span_start x.
Proof.
  split.
  - intros H. split.
    + intros i j a b Hij Ha Hb. apply (H i j); [done| |].
      * by apply lookup_app_l_Some.
      * by apply lookup_app_l_Some.
    + intros a [i Ha]%list_elem_of_lookup.
      apply (H i (length l)).
      * by apply lookup_lt_Some in Ha.
      * by apply lookup_app_l_Some.
      * by rewrite list_lookup_middle.
  - intros [Hl Hx] i j a b Hij Ha Hb.
    apply lookup_lt_Some in Hb as Hj. rewrite length_app in Hj. simpl in Hj.
    rewrite lookup_app_l in Ha by lia.
    destruct (decide (j < length l)%nat) as [Hlt|Hge].
    + rewrite lookup_app_l in Hb by done. by apply (Hl i j).
    + assert (j = length l) as -> by lia.
      rewrite list_lookup_middle in Hb by done. injection Hb as <-.
      apply Hx. by apply list_elem_of_lookup_2 in Ha.
Qed.

Lemma bio_vocabulary_lookup (ID2LABEL : gmap Z string) (i : Z) (l : string) :
  bio_vocabulary ID2LABEL = true → ID2LABEL !! i = Some l →
  is_bio_label l = true.
Proof.
  unfold bio_vocabulary. rewrite forallb_forall. intros Hall Hl.
  apply (Hall (i, l)). apply list_elem_of_In. by apply elem_of_map_to_list.
Qed.

Lemma prefix_two (c1 c2 : ascii) (l : string) :
  String.prefix (String c1 (String c2 EmptyString)) l = true →
  ∃ T, l = String c1 (String c2 T).
Proof.
  destruct l as [|d1 [|d2 T]]; simpl; try done.
  - by destruct (ascii_dec c1 d1).
  - destruct (ascii_dec c1 d1) as [->|]; [|done].
    destruct (ascii_dec c2 d2) as [->|]; [|done]. eauto.
Qed.

Lemma bio_label_cases (ID2LABEL : gmap Z string) (lid : Z) :
  bio_vocabulary ID2LABEL = true →
  Py.dict_get ID2LABEL lid "O" = "O"
  ∨ ∃ T, ID2LABEL !! lid = Some ("B-" +:+ T)
         ∨ ID2LABEL !! lid = Some ("I-" +:+ T).
Proof.
  intros Hv. unfold Py.dict_get.
  destruct (ID2LABEL !! lid) as [l|] eqn:Hl; [|by left].
  apply (bio_vocabulary_lookup _ _ _ Hv) in Hl as Hbio.
  unfold is_bio_label in Hbio.
  apply orb_true_iff in Hbio as [Hbio|HI].
  - apply orb_true_iff in Hbio as [HO|HB].
    + left. simpl. by apply bool_decide_eq_true in HO.
    + right. apply prefix_two in HB as [T ->]. exists T. by left.
  - right. apply prefix_two in HI as [T ->]. exists T. by right.
Qed.

Lemma decoder_inv_init : decoder_inv None decoder_init.
Proof.
  split; [apply disjoint_sorted_nil|]. intros sp Hsp. by inversion Hsp.
Qed.

Lemma decoder_inv_open (prev : option Z) (st : decoder_state) (s e : Z)
    (T : string) :
  decoder_inv prev st →
  match prev with Some p => p ≤ s | None => True end → s ≤ e →
  decoder_inv (Some e) (DecoderState (emit_open st) (Some T) s e).
Proof.
  intros [Hds Hall] Hprev Hse. unfold decoder_inv, emit_open at 1 3. simpl.
  split.
  - apply disjoint_sorted_snoc. split; [done|].
    intros a Ha. destruct (Hall a Ha) as [H1 H2].
    destruct prev as [p|]; [|done]. unfold span_start at 1 3. simpl. lia.
  - intros sp [Hsp|Hsp]%elem_of_app.
    + destruct (Hall sp Hsp) as [H1 H2]. destruct prev as [p|]; [|done].
      split; [done | lia].
    + apply list_elem_of_singleton in Hsp as ->.
      unfold span_start, span_end. simpl. lia.
Qed.

Lemma decoder_inv_close (prev : option Z) (st : decoder_state) (s e : Z) :
  decoder_inv prev st →
  match prev with Some p => p ≤ s | None => True end → s ≤ e →
  decoder_inv (Some e)
    (DecoderState (emit_open st) None (current_start st) (current_end st)).
Proof.
  intros [Hds Hall] Hprev Hse. unfold decoder_inv, emit_open at 1 3. simpl.
  split; [done|]. intros sp Hsp. destruct (Hall sp Hsp) as [H1 H2].
  destruct prev as [p|]; [|done]. split; [done | lia].
Qed.

Lemma decoder_inv_extend (prev : option Z) (st : decoder_state) (s e : Z)
    (T : string) :
  decoder_inv prev st → current_label st = Some T →
  match prev with Some p => p ≤ s | None => True end → s ≤ e →
  decoder_inv (Some e) (DecoderState (spans st) (Some T) (current_start st) e).
Proof.
  unfold decoder_inv, emit_open. simpl. intros [Hds Hall] Hcur Hprev Hse.
  rewrite Hcur in Hds, Hall.
  apply disjoint_sorted_snoc in Hds as [Hds Hlast].
  assert (span_start (current_start st, current_end st, T)
          ≤ span_end (current_start st, current_end st, T)
          ∧ match prev with
            | Some p => span_end (current_start st, current_end st, T) ≤ p
            | None => False
            end) as [Hc1 Hc2].
  { apply Hall. apply elem_of_app. right. by apply list_elem_of_singleton. }
  unfold span_start, span_end in Hc1, Hc2. simpl in Hc1, Hc2.
  destruct prev as [p|]; [|done].
  split.
  - apply disjoint_sorted_snoc. split; [done|]. exact Hlast.
  - intros sp [Hsp|Hsp]%elem_of_app.
    + destruct (Hall sp) as [H1 H2]; [apply elem_of_app; by left|].
      split; [done | lia].
    + apply list_elem_of_singleton in Hsp as ->.
      unfold span_start, span_end. simpl. lia.
Qed.

Lemma decode_step_inv (ID2LABEL : gmap Z string) (prev : option Z)
    (st : decoder_state) (s e lid : Z) :
  bio_vocabulary ID2LABEL = true →
  decoder_inv prev st →
  is_zero_zero (s, e) = false →
  match prev with Some p => p ≤ s | None => True end → s ≤ e →
  ∃ st', decode_step ID2LABEL st ((s, e), lid) = Ok st'
         ∧ decoder_inv (Some e) st'.
Proof.
  intros Hv Hinv Hz Hprev Hse.
  assert (¬ (s = 0 ∧ e = 0)) as Hne.
  { unfold is_zero_zero in Hz. simpl in Hz. intros [-> ->]. done. }
  destruct (bio_label_cases ID2LABEL lid Hv) as [HO|[T [HB|HI]]].
  - rewrite decode_step_O by done. unfold is_zero_zero in Hz. simpl in Hz.
    rewrite Hz. eexists. split; [done|]. by apply (decoder_inv_close prev _ s).
  - rewrite (decode_step_B _ _ _ _ _ T) by done.
    eexists. split; [done|]. by apply (decoder_inv_open prev).
  - destruct (decide (current_label st = Some T)) as [Hsame|Hother].
    + rewrite (decode_step_I_same _ _ _ _ _ T) by done.
      eexists. split; [done|]. by apply (decoder_inv_extend prev _ s).
    + rewrite (decode_step_I_other _ _ _ _ _ T) by done.
      eexists. split; [done|]. by apply (decoder_inv_open prev).
Qed.

Lemma decode_loop_inv (ID2LABEL : gmap Z string) (offsets : list (Z * Z)) :
  bio_vocabulary ID2LABEL = true →
  ∀ (label_ids : list Z) (prev : option Z) (st : decoder_state),
    decoder_inv prev st →
    ordered_after is_zero_zero prev offsets = true →
    ∃ st' prev',
      for_each (decode_step ID2LABEL) st (Py.zip offsets label_ids) = Ok st'
      ∧ decoder_inv prev' st'.
Proof.
  intros Hv. induction offsets as [|[s e] offs IH];
    intros label_ids prev st Hinv Hord.
  - exists st, prev. done.
  - destruct label_ids as [|lid lids]; [by exists st, prev|].
    unfold Py.zip in *. cbn [zip_with]. rewrite for_each_cons.
    cbn [ordered_after] in Hord.
    destruct (is_zero_zero (s, e)) eqn:Hz.
    + unfold is_zero_zero in Hz. simpl in Hz.
      apply andb_true_iff in Hz as [->%Z.eqb_eq ->%Z.eqb_eq].
      rewrite decode_step_skip, bind_Ok. by apply (IH lids prev).
    + apply andb_true_iff in Hord as [Hord Hrest].
      apply andb_true_iff in Hord as [Hp Hse]. simpl in Hp, Hse, Hrest.
      destruct (decode_step_inv ID2LABEL prev st s e lid) as (st1 & -> & Hinv1);
        [done | done | done | | lia |].
      { destruct prev as [p|]; [lia | done]. }
      rewrite bind_Ok. by apply (IH lids (Some e)).
Qed.

(** C2 (amended). Non-overlap and order: when every label of the vocabulary
    is O, B-TYPE or I-TYPE, and the tokens other than those with offset
    (0,0) have start <= end and each starts at or after the end of the one
    before it, [bio_to_spans] returns a span list that is pairwise
    non-overlapping and sorted ascending by start. *)
Theorem spans_disjoint_and_sorted (ID2LABEL : gmap Z string) (text : string)
    (offsets : list (Z * Z)) (label_ids : list Z) :
  bio_vocabulary ID2LABEL = true →
  left_to_right is_zero_zero offsets = true →
  ∃ spans,
    bio_to_spans ID2LABEL text offsets label_ids = Ok spans
    ∧ disjoint_sorted spans.
Proof.
  intros Hv Hord. unfold bio_to_spans.
  destruct (decode_loop_inv ID2LABEL offsets Hv label_ids None decoder_init)
    as (st & prev & -> & Hds & _); [apply decoder_inv_init | done |].
  rewrite bind_Ok. eauto.
Qed.

Lemma spans_disjoint_and_sorted_witness :
  ∃ spans,
    bio_to_spans sample_ID2LABEL "call 555 now"
                 [(0, 0); (0, 4); (5, 8); (9, 12); (0, 0)] [0; 0; 1; 3; 0]
    = Ok spans
    ∧ disjoint_sorted spans.
Proof.
  apply (spans_disjoint_and_sorted sample_ID2LABEL "call 555 now"
           [(0, 0); (0, 4); (5, 8); (9, 12); (0, 0)] [0; 0; 1; 3; 0]).
  - vm_compute. reflexivity.
  - vm_compute. reflexivity.
Defined.

(** C2, as stated, fails: with the zero-width tokens set aside the offsets
    below are left to right, yet the zero-width token (2,2) is decoded and
    its span comes after one that starts at 5. *)
Lemma zero_width_token_breaks_order :
  left_to_right is_zero_width [(5, 8); (2, 2); (8, 9)] = true
  ∧ bio_to_spans sample_ID2LABEL "0123456789" [(5, 8); (2, 2); (8, 9)]
                 [1; 3; 1]
    = Ok [(5, 8, "PHONE"); (2, 2, "EMAIL"); (8, 9, "PHONE")]
  ∧ ¬ disjoint_sorted [(5, 8, "PHONE"); (2, 2, "EMAIL"); (8, 9, "PHONE")].
Proof.
  split_and!; [vm_compute; reflexivity | vm_compute; reflexivity |].
  intros H.
  destruct (H 0%nat 1%nat (5, 8, "PHONE") (2, 2, "EMAIL")) as [H1 _];
    [lia | done | done |].
  unfold span_start, span_end in H1. simpl in H1. lia.
Qed.

(** ** BatchCollator *)

Lemma foldl_max_spec (xs : list Z) :
  ∀ x : Z,
    (foldl Z.max x xs = x ∨ foldl Z.max x xs ∈ xs)
    ∧ x ≤ foldl Z.max x xs
    ∧ ∀ y, y ∈ xs → y ≤ foldl Z.max x xs.
Proof.
  induction xs as [|z xs IH]; intros x; simpl.
  - split_and!; [by left | lia | intros y Hy; by inversion Hy].
  - destruct (IH (Z.max x z)) as (Hin & Hge & Hall). split_and!.
    + destruct Hin as [Heq|Hin].
      * rewrite Heq. destruct (Z.max_spec x z) as [[_ ->]|[_ ->]].
        -- right. by left.
        -- by left.
      * right. by right.
    + lia.
    + intros y [->|Hy]%elem_of_cons; [lia | by apply Hall].
Qed.

Lemma py_max_spec (xs : list Z) :
  xs ≠ [] → ∃ m, Py.max xs = Ok m ∧ m ∈ xs ∧ ∀ y, y ∈ xs → y ≤ m.
Proof.
  destruct xs as [|x xs]; [done|]. intros _. simpl.
  destruct (foldl_max_spec xs x) as (Hin & Hge & Hall).
  eexists. split; [done|]. split.
  - destruct Hin as [->|Hin]; [by left | by right].
  - intros y [->|Hy]%elem_of_cons; [done | by apply Hall].
Qed.

Lemma pad_spec {A : Type} (seq : list A) (v : A) (n : nat) :
  (length seq ≤ n)%nat →
  pad seq v (Z.of_nat n) = seq ++ replicate (n - length seq) v
  ∧ length (pad seq v (Z.of_nat n)) = n.
Proof.
  intros Hle. unfold pad, Py.repeat, Py.len.
  replace (Z.to_nat (Z.of_nat n - Z.of_nat (length seq)))
    with (n - length seq)%nat by lia.
  split; [done|]. rewrite length_app, length_replicate. lia.
Qed.

(** C9. Batch collation: for a non-empty batch whose examples each have
    input ids, attention mask and labels of one length, [collate_batch]
    returns, for every example, its three sequences unchanged and followed
    by the pad id, by 0 and by the label pad id (-100 by default), up to the
    greatest input-ids length [n] found in that batch; nothing is cut. *)
Theorem collate_batch_right_pads (batch : list item)
    (pad_token_id label_pad_id : Z) :
  batch ≠ [] →
  Forall (fun x => length (it_attention_mask x) = length (it_input_ids x)
                   ∧ length (it_labels x) = length (it_input_ids x)) batch →
  ∃ (out : batch_out) (n : nat),
    collate_batch batch pad_token_id label_pad_id = Ok out
    ∧ default_label_pad_id = -100
    ∧ (∃ x, x ∈ batch ∧ length (it_input_ids x) = n)
    ∧ (∀ x, x ∈ batch → (length (it_input_ids x) ≤ n)%nat)
    ∧ length (bo_input_ids out) = length batch
    ∧ length (bo_attention_mask out) = length batch
    ∧ length (bo_labels out) = length batch
    ∧ ∀ (i : nat) (x : item),
        batch !! i = Some x →
        ∃ ids am lab,
          bo_input_ids out !! i = Some ids
          ∧ bo_attention_mask out !! i = Some am
          ∧ bo_labels out !! i = Some lab
          ∧ ids = it_input_ids x
                  ++ replicate (n - length (it_input_ids x)) pad_token_id
          ∧ am = it_attention_mask x
                 ++ replicate (n - length (it_attention_mask x)) 0
          ∧ lab = it_labels x
                  ++ replicate (n - length (it_labels x)) label_pad_id
          ∧ length ids = n ∧ length am = n ∧ length lab = n.
Proof.
  intros Hne Heq. unfold collate_batch.
  destruct (py_max_spec (Py.len <$> (it_input_ids <$> batch)))
    as (m & -> & Hin & Hmax).
  { by destruct batch. }
  rewrite bind_Ok.
  apply list_elem_of_fmap in Hin as (ids0 & -> & Hin).
  apply list_elem_of_fmap in Hin as (x0 & -> & Hx0).
  assert (∀ x, x ∈ batch →
               (length (it_input_ids x) ≤ length (it_input_ids x0))%nat)
    as Hle.
  { intros x Hx. specialize (Hmax (Py.len (it_input_ids x))).
    unfold Py.len in Hmax.
    assert (Z.of_nat (length (it_input_ids x))
            ≤ Z.of_nat (length (it_input_ids x0))); [|lia].
    apply Hmax. apply list_elem_of_fmap. eexists. split; [done|].
    apply list_elem_of_fmap. eauto. }
  eexists _, (length (it_input_ids x0)). split; [done|]. simpl.
  split_and!; [done | eauto | done | by rewrite !length_fmap ..|].
  intros i x Hx. rewrite !list_lookup_fmap, Hx. simpl.
  apply list_elem_of_lookup_2 in Hx as Hxin.
  rewrite Forall_forall in Heq. destruct (Heq x Hxin) as [Ham Hlab].
  specialize (Hle x Hxin). unfold Py.len.
  do 3 eexists. split_and!; [done | done | done | ..].
  - by apply pad_spec.
  - apply pad_spec. lia.
  - apply pad_spec. lia.
  - by apply pad_spec.
  - apply pad_spec. lia.
  - apply pad_spec. lia.
Qed.

Lemma collate_batch_right_pads_witness :
  ∃ (out : batch_out) (n : nat),
    collate_batch sample_batch 0 (-100) = Ok out
    ∧ default_label_pad_id = -100
    ∧ (∃ x, x ∈ sample_batch ∧ length (it_input_ids x) = n)
    ∧ (∀ x, x ∈ sample_batch → (length (it_input_ids x) ≤ n)%nat)
    ∧ length (bo_input_ids out) = length sample_batch
    ∧ length (bo_attention_mask out) = length sample_batch
    ∧ length (bo_labels out) = length sample_batch
    ∧ ∀ (i : nat) (x : item),
        sample_batch !! i = Some x →
        ∃ ids am lab,
          bo_input_ids out !! i = Some ids
          ∧ bo_attention_mask out !! i = Some am
          ∧ bo_labels out !! i = Some lab
          ∧ ids = it_input_ids x ++ replicate (n - length (it_input_ids x)) 0
          ∧ am = it_attention_mask x
                 ++ replicate (n - length (it_attention_mask x)) 0
          ∧ lab = it_labels x ++ replicate (n - length (it_labels x)) (-100)
          ∧ length ids = n ∧ length am = n ∧ length lab = n.
Proof.
  apply (collate_batch_right_pads sample_batch 0 (-100)).
  - discriminate.
  - repeat constructor.
Defined.

(** ** SpanValidator *)

Lemma existsb_orb {A : Type} (f g : A → bool) (l : list A) :
  existsb (fun x => f x || g x) l = existsb f l || existsb g l.
Proof.
  induction l as [|x l IH]; simpl; [done|]. rewrite IH.
  destruct (f x), (g x), (existsb f l), (existsb g l); done.
Qed.

Lemma existsb_match_lit (s : string) (ws : list string) :
  existsb (Py.re_match_alt s) (Py.ReLit <$> ws)
  = existsb (fun w => String.prefix w s) ws.
Proof.
  induction ws as [|w ws IH]; [done|]. simpl. f_equal. exact IH.
Qed.

Lemma existsb_contains_cons (c : ascii) (s : string) (ws : list string) :
  existsb (fun w => Py.contains w (String c s)) ws
  = existsb (fun w => String.prefix w (String c s)) ws
    || existsb (fun w => Py.contains w s) ws.
Proof. by rewrite <- existsb_orb. Qed.

Lemma existsb_match_alts (s : string) (ws : list string) :
  existsb (Py.re_match_alt s) (Py.ReDigit :: (Py.ReLit <$> ws))
  = Py.re_match_alt s Py.ReDigit || existsb (fun w => String.prefix w s) ws.
Proof. rewrite <- existsb_match_lit. done. Qed.

(** A search for [\d|w1|...|wn] succeeds exactly on the strings that hold
    a digit or one of the words. *)
Lemma re_search_digit_or_words (ws : list string) (s : string) :
  Py.re_search (Py.ReDigit :: (Py.ReLit <$> ws)) s
  = has_digit s || existsb (fun w => Py.contains w s) ws.
Proof.
  induction s as [|c s IH].
  - cbn [Py.re_search]. rewrite existsb_match_alts. simpl.
    induction ws as [|w ws IHw]; simpl; [done|]. rewrite <- IHw.
    by destruct w, (existsb _ ws).
  - cbn [Py.re_search]. rewrite IH, existsb_match_alts, existsb_contains_cons.
    unfold has_digit. cbn [list_ascii_of_string existsb Py.re_match_alt].
    btauto.
Qed.

Lemma validate_span_plausible (text label : string) :
  validate_span text label = plausible label (Py.lower text).
Proof.
  unfold validate_span, plausible, phone_re, credit_card_re, has_digit_word.
  rewrite !re_search_digit_or_words.
  repeat case_bool_decide; try done; try congruence.
  - rewrite existsb_app. cbn [existsb].
    generalize (has_digit (Py.lower text)).
    generalize (existsb (fun w => Py.contains w (Py.lower text)) digit_words).
    generalize (Py.contains "plus" (Py.lower text)).
    by intros [] [] [].
  - generalize (Py.contains " at " (Py.lower text)).
    generalize (Py.contains "@" (Py.lower text)).
    generalize (Py.contains " dot " (Py.lower text)).
    by intros [] [] [].
  - generalize (has_digit (Py.lower text)).
    generalize (existsb (fun w => Py.contains w (Py.lower text)) digit_words).
    by intros [] [].
Qed.

Lemma filter_spans_acc (label_is_pii : string → bool) (text : string)
    (raw_spans : list span) :
  ∀ acc : list pred_entity,
    foldl (fun ents sp =>
             let '(s, e, lab) := sp in
             let span_text := Py.slice text s e in
             if validate_span span_text lab
             then ents ++ [PredEntity s e lab (label_is_pii lab)]
             else ents)
          acc raw_spans
    = acc ++ (to_pred_entity label_is_pii
              <$> filter (fun sp => accepted text sp) raw_spans).
Proof.
  induction raw_spans as [|[[s e] lab] raw IH]; intros acc; simpl.
  - by rewrite app_nil_r.
  - rewrite IH, filter_cons, validate_span_plausible.
    change (plausible lab (Py.lower (Py.slice text s e)))
      with (accepted text (s, e, lab)).
    destruct (accepted text (s, e, lab)); case_decide; try done.
    by rewrite <- app_assoc.
Qed.

(** C7. SpanValidator is a filter: the output lists, in their order, the
    spans whose lowercased [text[start:end]] passes the rule of their label
    (PHONE: a digit, a digit word or "plus"; CREDIT_CARD: a digit or a
    digit word; EMAIL: "@", " at " or " dot "; DATE and any other label:
    always), each with its start, end and label unchanged and its PII flag;
    "four two four two" as CREDIT_CARD is accepted, "john smith" as PHONE
    is rejected. *)
Theorem validator_is_a_filter (label_is_pii : string → bool) (text : string)
    (raw_spans : list span) :
  filter_spans label_is_pii text raw_spans
  = to_pred_entity label_is_pii
    <$> filter (fun sp => accepted text sp) raw_spans
  ∧ (∀ t label, validate_span t label = plausible label (Py.lower t))
  ∧ (∀ sub, plausible "DATE" sub = true)
  ∧ (∀ label sub,
       label ∉ ["PHONE"; "CREDIT_CARD"; "EMAIL"] → plausible label sub = true)
  ∧ validate_span "four two four two" "CREDIT_CARD" = true
  ∧ validate_span "john smith" "PHONE" = false.
Proof.
  split_and!.
  - unfold filter_spans. by rewrite filter_spans_acc.
  - apply validate_span_plausible.
  - done.
  - intros label sub Hl. unfold plausible.
    repeat case_bool_decide; subst; try done; exfalso; apply Hl; set_solver.
  - vm_compute. reflexivity.
  - vm_compute. reflexivity.
Qed.

Lemma contains_digit_word (w sub : string) :
  w ∈ digit_words → Py.contains w sub = true → has_digit_word sub = true.
Proof.
  intros Hw Hc. unfold has_digit_word. apply existsb_exists.
  exists w. split; [by apply list_elem_of_In | done].
Qed.

(** C10. Digit words are matched as substrings, without word boundaries:
    when the lowercased text holds one of "one" ... "nine", "zero"
    anywhere, [validate_span] accepts it as PHONE and as CREDIT_CARD; so
    "money", which holds "one" but no digit and no digit word of its own,
    is accepted. *)
Theorem digit_word_inside_word_accepted (text label w : string) :
  w ∈ digit_words →
  Py.contains w (Py.lower text) = true →
  label = "PHONE" ∨ label = "CREDIT_CARD" →
  validate_span text label = true
  ∧ validate_span "money" "PHONE" = true
  ∧ validate_span "money" "CREDIT_CARD" = true
  ∧ has_digit "money" = false.
Proof.
  intros Hw Hc Hl. split_and!; [|vm_compute; reflexivity ..].
  rewrite validate_span_plausible. unfold plausible.
  rewrite (contains_digit_word w) by done.
  destruct Hl as [-> | ->]; simpl; by rewrite orb_true_r.
Qed.

Lemma digit_word_inside_word_accepted_witness :
  validate_span "Money" "PHONE" = true
  ∧ validate_span "money" "PHONE" = true
  ∧ validate_span "money" "CREDIT_CARD" = true
  ∧ has_digit "money" = false.
Proof.
  apply (digit_word_inside_word_accepted "Money" "PHONE" "one").
  - vm_compute. set_solver.
  - vm_compute. reflexivity.
  - left. reflexivity.
Defined.

(** ** Round trip: tags, gold labels, spans *)

Lemma for_each_fmap {A B S : Type} (body : S → B → result S) (g : A → B)
    (xs : list A) :
  ∀ st, for_each body st (g <$> xs)
        = for_each (fun st x => body st (g x)) st xs.
Proof.
  induction xs as [|x xs IH]; intros st; simpl; [done|].
  destruct (body st (g x)); simpl; [apply IH | done].
Qed.

Lemma single_entity_tags (text : string) (ent : entity) :
  valid_entity text ent →
  ∃ tags, build_char_tags text [ent] = Ok tags
          ∧ length tags = String.length text
          ∧ ∀ n : nat, (n < String.length text)%nat →
                       tags !! n = painted ent n (Some "O").
Proof.
  intros Hv. unfold build_char_tags.
  destruct (tag_entity_valid text (Py.repeat "O" (Py.str_len text)) ent Hv)
    as (tags & Hrun & Hlen & Hget).
  { unfold Py.repeat, Py.str_len. rewrite length_replicate. lia. }
  exists tags. rewrite for_each_cons, Hrun, bind_Ok. split; [done|].
  unfold Py.repeat, Py.str_len in *. rewrite length_replicate in Hlen.
  split; [lia|]. intros n Hn. rewrite Hget. f_equal.
  apply lookup_replicate_2. lia.
Qed.

Lemma align_as_map (tokenizer : tokenizer_t) (l2i : gmap string Z) (o : Z)
    (char_tags : list string) (toks : list token) :
  l2i !! "O" = Some o →
  Forall (fun tok : token => 0 ≤ tok.1.1) toks →
  align_bio_tags tokenizer l2i char_tags toks.*1 toks.*2
  = Ok ((fun tok : token => aligned_label tokenizer l2i o char_tags tok.1 tok.2)
        <$> toks).
Proof.
  intros Ho Hpos.
  destruct (align_bio_tags_spec tokenizer l2i o char_tags toks.*2 toks.*1)
    as (gold & -> & Hlen & Hget); [done | by rewrite !length_fmap | |].
  { apply Forall_fmap. by apply (Forall_impl _ _ _ Hpos). }
  f_equal. apply list_eq. intros idx.
  destruct (toks !! idx) as [tok|] eqn:Htok.
  - rewrite (list_lookup_fmap _ toks), Htok. simpl.
    apply Hget; by rewrite list_lookup_fmap, Htok.
  - rewrite (list_lookup_fmap _ toks), Htok. simpl.
    apply lookup_ge_None. apply lookup_ge_None in Htok.
    rewrite Hlen, length_fmap. done.
Qed.

Lemma zip_fst_map {A B C : Type} (f : A * B → C) (l : list (A * B)) :
  Py.zip l.*1 (f <$> l) = (fun x => (x.1, f x)) <$> l.
Proof.
  unfold Py.zip. induction l as [|x l IH]; [done|]. simpl. f_equal. exact IH.
Qed.

Lemma tag_round_trips_spec (label_list : list string)
    (ID2LABEL : gmap Z string) (tag : string) :
  tag_round_trips label_list ID2LABEL tag = true →
  ∃ i, label2id label_list !! tag = Some i ∧ ID2LABEL !! i = Some tag.
Proof.
  unfold tag_round_trips.
  destruct (label2id label_list !! tag) as [i|]; [|done].
  intros H%bool_decide_eq_true. eauto.
Qed.

Lemma idle_state_eq (st : decoder_state) :
  current_label st = None →
  DecoderState (emit_open st) None (current_start st) (current_end st) = st.
Proof. destruct st as [sp cl cs ce]. unfold emit_open. simpl. by intros ->. Qed.

Section round_trip.

Context (tokenizer : tokenizer_t) (l2i : gmap string Z)
        (ID2LABEL : gmap Z string) (tags : list string)
        (s e : Z) (lab : string) (o b i : Z).

Hypothesis Hvalid : 0 ≤ s ∧ s < e ∧ e ≤ Py.len tags.
Hypothesis Htags :
  ∀ n : nat, (n < length tags)%nat →
             tags !! n = painted (Entity s e lab) n (Some "O").
Hypothesis HO : l2i !! "O" = Some o.
Hypothesis HB : l2i !! ("B-" +:+ lab) = Some b.
Hypothesis HI : l2i !! ("I-" +:+ lab) = Some i.
Hypothesis HdecO : ID2LABEL !! o = Some "O".
Hypothesis HdecB : ID2LABEL !! b = Some ("B-" +:+ lab).
Hypothesis HdecI : ID2LABEL !! i = Some ("I-" +:+ lab).
Hypothesis Hsentinel : ID2LABEL !! (-100) = None.

Local Abbreviation gold := (gold_label tokenizer l2i o tags).
Local Abbreviation step := (gold_step tokenizer l2i ID2LABEL o tags).
Local Abbreviation open_to := (decoder_open_to s lab).

Lemma step_eq (st : decoder_state) (st_ en_ tid : Z) :
  step st (st_, en_, tid)
  = decode_step ID2LABEL st ((st_, en_), gold (st_, en_, tid)).
Proof. done. Qed.

Lemma tag_lookup (a : Z) :
  0 ≤ a < Py.len tags →
  tags !! Z.to_nat a = painted (Entity s e lab) (Z.to_nat a) (Some "O").
Proof. intros Ha. apply Htags. unfold Py.len in Ha. lia. Qed.

Lemma gold_outside (tok : token) :
  outside tokenizer s e tok = true → 0 ≤ tok.1.1 →
  Py.dict_get ID2LABEL (gold tok) "O" = "O".
Proof.
  destruct tok as [[st en] tid]. unfold outside, is_zero_width, gold,
    aligned_label, Py.dict_get. simpl. intros Hout Hpos.
  destruct (bool_decide (st = en)) eqn:Hw; simpl.
  { by rewrite Hsentinel. }
  apply bool_decide_eq_false in Hw.
  destruct (Z.eqb_spec st en); [done|]. simpl in Hout.
  destruct (is_special_id tokenizer tid); simpl in *.
  { by rewrite Hsentinel. }
  case_bool_decide as Hlen; [|by rewrite HdecO].
  rewrite tag_lookup by lia. unfold painted. simpl.
  rewrite bool_decide_eq_false_2 by lia.
  rewrite bool_decide_eq_false_2 by lia.
  rewrite HO. simpl. by rewrite HdecO.
Qed.

Lemma gold_first (tok : token) :
  tok.1.1 = s → s < tok.1.2 → is_special_id tokenizer tok.2 = false →
  gold tok = b.
Proof.
  destruct tok as [[st en] tid]. unfold gold, aligned_label. simpl.
  intros -> Hw ->. rewrite bool_decide_eq_false_2 by lia. simpl.
  rewrite bool_decide_eq_true_2 by lia.
  rewrite tag_lookup by lia. unfold painted. simpl.
  rewrite bool_decide_eq_true_2 by lia. by rewrite HB.
Qed.

Lemma gold_inside (tok : token) :
  s < tok.1.1 < e → tok.1.1 < tok.1.2 →
  is_special_id tokenizer tok.2 = false →
  gold tok = i.
Proof.
  destruct tok as [[st en] tid]. unfold gold, aligned_label. simpl.
  intros Hin Hw ->. rewrite bool_decide_eq_false_2 by lia. simpl.
  rewrite bool_decide_eq_true_2 by lia.
  rewrite tag_lookup by lia. unfold painted. simpl.
  rewrite bool_decide_eq_false_2 by lia.
  rewrite bool_decide_eq_true_2 by lia. by rewrite HI.
Qed.

(** Tokens outside the annotation leave the emitted and open spans as
    they are, and leave an idle decoder idle. *)
Lemma decode_outside (toks : list token) :
  forallb (outside tokenizer s e) toks = true →
  Forall (fun tok : token => 0 ≤ tok.1.1) toks →
  ∀ st, ∃ st',
    for_each step st toks = Ok st'
    ∧ emit_open st' = emit_open st
    ∧ (current_label st = None → st' = st).
Proof.
  induction toks as [|tok toks IH]; intros Hout Hpos st.
  - exists st. done.
  - simpl in Hout. apply andb_true_iff in Hout as [Hout Hrest].
    apply Forall_cons in Hpos as [Hpos Hposr].
    rewrite for_each_cons. destruct tok as [[st_ en_] tid].
    rewrite step_eq, decode_step_O by (by apply gold_outside).
    rewrite bind_Ok.
    destruct ((st_ =? 0) && (en_ =? 0)); [by apply IH|].
    destruct (IH Hrest Hposr
                (DecoderState (emit_open st) None (current_start st)
                              (current_end st)))
      as (st' & Hrun & Hemit & Hidle).
    exists st'. split; [exact Hrun|]. split; [by rewrite Hemit|].
    intros Hcur. rewrite Hidle by done. by apply idle_state_eq.
Qed.

Lemma tiles_le (toks : list token) :
  ∀ a, tiles tokenizer is_zero_zero a e toks = true → a ≤ e.
Proof.
  induction toks as [|tok toks IH]; intros a; simpl.
  - intros ?%Z.eqb_eq. lia.
  - destruct (is_zero_zero tok.1); [apply IH|].
    rewrite !andb_true_iff. intros [[[_ Hw%Z.ltb_lt] _] Hrest].
    apply IH in Hrest. lia.
Qed.

Lemma decode_tiles (sp0 : list span) (toks : list token) :
  ∀ a st,
    tiles tokenizer is_zero_zero a e toks = true → s ≤ a →
    open_to sp0 a st →
    ∃ st', for_each step st toks = Ok st' ∧ open_to sp0 e st'.
Proof.
  induction toks as [|tok toks IH]; intros a st Ht Ha Hst.
  - simpl in Ht. apply Z.eqb_eq in Ht as <-. by exists st.
  - cbn [tiles] in Ht. rewrite for_each_cons.
    destruct tok as [[st_ en_] tid]. simpl in Ht.
    destruct (is_zero_zero (st_, en_)) eqn:Hz.
    + unfold is_zero_zero in Hz. simpl in Hz.
      apply andb_true_iff in Hz as [->%Z.eqb_eq ->%Z.eqb_eq].
      rewrite step_eq, decode_step_skip, bind_Ok.
      by apply (IH a).
    + apply andb_true_iff in Ht as [Ht Hrest].
      apply andb_true_iff in Ht as [Ht Hsp].
      apply andb_true_iff in Ht as [->%Z.eqb_eq Hw%Z.ltb_lt].
      apply negb_true_iff in Hsp. apply tiles_le in Hrest as Hle.
      destruct Hst as [Hsp0 Hcur]. rewrite step_eq.
      destruct (decide (a = s)) as [->|Hne].
      * rewrite bool_decide_eq_true_2 in Hcur by done.
        rewrite (gold_first (s, en_, tid)) by done.
        rewrite (decode_step_B _ _ _ _ _ lab); [|lia|done].
        rewrite bind_Ok. apply (IH en_); [done | lia |].
        split; [unfold emit_open; simpl; by rewrite Hcur|]. simpl.
        rewrite bool_decide_eq_false_2 by lia. done.
      * rewrite bool_decide_eq_false_2 in Hcur by done.
        destruct Hcur as (Hcl & Hcs & Hce).
        rewrite (gold_inside (a, en_, tid)); [|simpl; lia|done|done].
        rewrite (decode_step_I_same _ _ _ _ _ lab); [|lia|done|done].
        rewrite bind_Ok. apply (IH en_); [done | lia |].
        split; [done|]. simpl.
        rewrite bool_decide_eq_false_2 by lia. done.
Qed.

(** The three phases together. *)
Lemma decode_gold (pre mid post : list token) :
  Forall (fun tok : token => 0 ≤ tok.1.1) (pre ++ mid ++ post) →
  forallb (outside tokenizer s e) pre = true →
  tiles tokenizer is_zero_zero s e mid = true →
  forallb (outside tokenizer s e) post = true →
  ∃ st, for_each step decoder_init (pre ++ mid ++ post) = Ok st
        ∧ emit_open st = [(s, e, lab)].
Proof.
  intros Hpos Hpre Hmid Hpost.
  apply Forall_app in Hpos as [Hpos1 Hpos].
  apply Forall_app in Hpos as [Hpos2 Hpos3].
  destruct (decode_outside pre Hpre Hpos1 decoder_init)
    as (st1 & Hrun1 & _ & Hidle).
  rewrite Hidle in Hrun1 by done.
  destruct (decode_tiles [] mid s decoder_init Hmid) as (st2 & Hrun2 & Hopen);
    [lia | split; [done | by rewrite bool_decide_eq_true_2] |].
  destruct (decode_outside post Hpost Hpos3 st2) as (st3 & Hrun3 & Hemit & _).
  exists st3. rewrite for_each_app, Hrun1, bind_Ok. cbn beta.
  rewrite for_each_app, Hrun2, bind_Ok. split; [exact Hrun3|]. rewrite Hemit.
  destruct Hopen as [Hsp Hcur].
  rewrite bool_decide_eq_false_2 in Hcur by lia.
  destruct Hcur as (Hcl & Hcs & Hce).
  unfold emit_open. by rewrite Hcl, Hsp, Hcs, Hce.
Qed.

End round_trip.

(** C1 (amended). Round trip: for a valid annotation (s, e, label) whose
    B- and I- tags, like O, have ids that the decoding table maps back (the
    sentinel -100 being no id of that table), and a stream of tokens with
    non-negative offsets made of tokens outside the annotation, then
    tokens that tile [s, e) once those with offset (0,0) are set aside,
    then tokens outside the annotation again: the character tags, the gold
    label ids aligned to the stream, and the decoding of these ids with
    the stream's offsets give exactly the single span (s, e, label). *)
Theorem round_trip_single_span (tokenizer : tokenizer_t)
    (label_list : list string) (ID2LABEL : gmap Z string) (text : string)
    (s e : Z) (lab : string) (pre mid post : list token) :
  valid_entity text (Entity s e lab) →
  tag_round_trips label_list ID2LABEL "O" = true →
  tag_round_trips label_list ID2LABEL ("B-" +:+ lab) = true →
  tag_round_trips label_list ID2LABEL ("I-" +:+ lab) = true →
  ID2LABEL !! (-100) = None →
  Forall (fun tok : token => 0 ≤ tok.1.1) (pre ++ mid ++ post) →
  forallb (outside tokenizer s e) pre = true →
  tiles tokenizer is_zero_zero s e mid = true →
  forallb (outside tokenizer s e) post = true →
  round_trip tokenizer label_list ID2LABEL text [Entity s e lab]
             (pre ++ mid ++ post)
  = Ok [(s, e, lab)].
Proof.
  intros Hv HO HB HI Hsent Hpos Hpre Hmid Hpost.
  destruct (single_entity_tags text _ Hv) as (tags & Hrun & Hlen & Hget).
  apply tag_round_trips_spec in HO as (o & HO & HdecO).
  apply tag_round_trips_spec in HB as (b & HB & HdecB).
  apply tag_round_trips_spec in HI as (i & HI & HdecI).
  unfold round_trip. rewrite Hrun, bind_Ok.
  rewrite (align_as_map _ _ o) by done. rewrite bind_Ok.
  unfold bio_to_spans. rewrite zip_fst_map, for_each_fmap.
  destruct (decode_gold tokenizer (label2id label_list) ID2LABEL tags s e lab
              o b i) with (pre := pre) (mid := mid) (post := post)
    as (st & Hdec & Hemit); try done.
  - unfold valid_entity, Py.str_len in Hv. simpl in Hv. unfold Py.len. lia.
  - intros n Hn. apply Hget. lia.
  - match goal with
    | |- ?run ≫= _ = _ => replace run with (Ok st : result decoder_state)
    end.
    by rewrite bind_Ok, Hemit.
Qed.

Lemma round_trip_single_span_witness :
  round_trip sample_tokenizer sample_labels sample_ID2LABEL "call 555 1234 ok"
             [Entity 5 13 "PHONE"]
             ([((0, 0), 101); ((0, 4), 7)]
              ++ [((5, 8), 8); ((0, 0), 0); ((8, 13), 9)]
              ++ [((14, 16), 10); ((0, 0), 102)])
  = Ok [(5, 13, "PHONE")].
Proof.
  apply (round_trip_single_span sample_tokenizer sample_labels sample_ID2LABEL
           "call 555 1234 ok" 5 13 "PHONE"
           [((0, 0), 101); ((0, 4), 7)]
           [((5, 8), 8); ((0, 0), 0); ((8, 13), 9)]
           [((14, 16), 10); ((0, 0), 102)]).
  - vm_compute. split_and!; done.
  - vm_compute. reflexivity.
  - vm_compute. reflexivity.
  - vm_compute. reflexivity.
  - vm_compute. reflexivity.
  - repeat constructor; simpl; lia.
  - vm_compute. reflexivity.
  - vm_compute. reflexivity.
  - vm_compute. reflexivity.
Defined.

(** C1, as stated, fails: the tokens of non-zero width tile [0, 6), but the
    zero-width token (3,3) between them is labeled -100, which decodes
    as O and ends the span at 3; the decoder returns two spans. *)
Lemma zero_width_token_splits_span :
  valid_entity "abcdef" (Entity 0 6 "PHONE")
  ∧ tiles sample_tokenizer is_zero_width 0 6
          [((0, 3), 7); ((3, 3), 8); ((3, 6), 9)] = true
  ∧ round_trip sample_tokenizer sample_labels sample_ID2LABEL "abcdef"
               [Entity 0 6 "PHONE"] [((0, 3), 7); ((3, 3), 8); ((3, 6), 9)]
    = Ok [(0, 3, "PHONE"); (3, 6, "PHONE")].
Proof.
  split_and!; [vm_compute; split_and!; done | vm_compute; reflexivity ..].
Qed.

(** ** Input lines *)

Lemma load_line_blank (json_loads : string → option json_obj)
    (tokenizer : tokenizer_t) (label_list : list string) (max_length : Z)
    (items : list item) (line : string) :
  Py.strip line = "" →
  load_line json_loads tokenizer label_list max_length items line = Ok items.
Proof. intros Hb. unfold load_line. by rewrite Hb. Qed.

Lemma load_line_malformed (json_loads : string → option json_obj)
    (tokenizer : tokenizer_t) (label_list : list string) (max_length : Z)
    (items : list item) (line : string) :
  Py.strip line ≠ "" → json_loads (Py.strip line) = None →
  load_line json_loads tokenizer label_list max_length items line
  = Raise JSONDecodeError.
Proof.
  intros Hb Hbad. unfold load_line.
  rewrite bool_decide_eq_false_2 by done. by rewrite Hbad.
Qed.

Lemma predict_line_malformed (json_loads : string → option json_obj)
    (tokenizer : tokenizer_t) (model : list Z → list Z → list Z)
    (ID2LABEL : gmap Z string) (label_is_pii : string → bool) (max_length : Z)
    (results : gmap string (list pred_entity)) (line : string) :
  json_loads line = None →
  predict_line json_loads tokenizer model ID2LABEL label_is_pii max_length
               results line
  = Raise JSONDecodeError.
Proof. intros Hbad. unfold predict_line. by rewrite Hbad. Qed.

(** C8 (amended). Input lines: in dataset construction a line that is
    empty once stripped is skipped, the items being those of the other
    lines; a line that is not valid JSON, once reached, makes dataset
    construction raise the JSON decode error, and makes prediction raise
    it as well: the lines after it are not processed. *)
Theorem blank_line_skipped_malformed_line_raises
    (json_loads : string → option json_obj) (tokenizer : tokenizer_t)
    (model : list Z → list Z → list Z) (ID2LABEL : gmap Z string)
    (label_is_pii : string → bool) (label_list : list string) (max_length : Z)
    (before after : list string) (line : string) :
  (Py.strip line = "" →
   PIIDataset_init json_loads (before ++ line :: after) tokenizer label_list
                   max_length
   = PIIDataset_init json_loads (before ++ after) tokenizer label_list
                     max_length)
  ∧ (Py.strip line ≠ "" → json_loads (Py.strip line) = None →
     ∀ items,
       PIIDataset_init json_loads before tokenizer label_list max_length
       = Ok items →
       PIIDataset_init json_loads (before ++ line :: after) tokenizer
                       label_list max_length
       = Raise JSONDecodeError)
  ∧ (json_loads line = None →
     ∀ results,
       main json_loads before tokenizer model ID2LABEL label_is_pii max_length
       = Ok results →
       main json_loads (before ++ line :: after) tokenizer model ID2LABEL
            label_is_pii max_length
       = Raise JSONDecodeError).
Proof.
  unfold PIIDataset_init, main. split_and!.
  - intros Hb. rewrite !for_each_app.
    destruct (for_each _ [] before) as [items|err]; [|done].
    rewrite !bind_Ok, for_each_cons. by rewrite load_line_blank.
  - intros Hb Hbad items Hitems.
    rewrite for_each_app, Hitems, bind_Ok, for_each_cons.
    by rewrite load_line_malformed.
  - intros Hbad results Hres.
    rewrite for_each_app, Hres, bind_Ok, for_each_cons.
    by rewrite predict_line_malformed.
Qed.

Lemma blank_line_skipped_malformed_line_raises_witness :
  PIIDataset_init sample_json_loads ([sample_line] ++ "{" :: [sample_line])
                  sample_tokenizer sample_labels 128
  = Raise JSONDecodeError
  ∧ main sample_json_loads ([sample_line] ++ "{" :: [sample_line])
         sample_tokenizer sample_model sample_ID2LABEL (fun _ => true) 128
    = Raise JSONDecodeError
  ∧ PIIDataset_init sample_json_loads ([sample_line] ++ " " :: [sample_line])
                    sample_tokenizer sample_labels 128
    = PIIDataset_init sample_json_loads ([sample_line] ++ [sample_line])
                      sample_tokenizer sample_labels 128.
Proof.
  split_and!.
  - apply (blank_line_skipped_malformed_line_raises sample_json_loads
             sample_tokenizer sample_model sample_ID2LABEL (fun _ => true)
             sample_labels 128 [sample_line] [sample_line] "{")
      with (items := [Item "u1" "hi" [] [] [] []]).
    + vm_compute. discriminate.
    + vm_compute. reflexivity.
    + vm_compute. reflexivity.
  - apply (blank_line_skipped_malformed_line_raises sample_json_loads
             sample_tokenizer sample_model sample_ID2LABEL (fun _ => true)
             sample_labels 128 [sample_line] [sample_line] "{")
      with (results := <["u1" := []]> ∅).
    + vm_compute. reflexivity.
    + vm_compute. reflexivity.
  - apply (blank_line_skipped_malformed_line_raises sample_json_loads
             sample_tokenizer sample_model sample_ID2LABEL (fun _ => true)
             sample_labels 128 [sample_line] [sample_line] " ").
    vm_compute. reflexivity.
Defined.

(** C8, as stated, fails: a line that is not valid JSON is not skipped.
    With it between two good lines, dataset construction and prediction
    both raise; without it both return. *)
Lemma malformed_line_aborts :
  PIIDataset_init sample_json_loads [sample_line; "{"; sample_line]
                  sample_tokenizer sample_labels 128
  = Raise JSONDecodeError
  ∧ PIIDataset_init sample_json_loads [sample_line; sample_line]
                    sample_tokenizer sample_labels 128
    = Ok [Item "u1" "hi" [] [] [] []; Item "u1" "hi" [] [] [] []]
  ∧ main sample_json_loads [sample_line; "{"; sample_line] sample_tokenizer
         sample_model sample_ID2LABEL (fun _ => true) 128
    = Raise JSONDecodeError
  ∧ main sample_json_loads [sample_line; sample_line] sample_tokenizer
         sample_model sample_ID2LABEL (fun _ => true) 128
    = Ok (<["u1" := []]> ∅).
Proof. split_and!; vm_compute; reflexivity. Qed.

(** * Further properties *)

(** ** SpanDecoder: when it raises *)

Lemma split_once_O : Py.split_once "-" "O" = None.
Proof. done. Qed.

Lemma decode_step_decodable (ID2LABEL : gmap Z string) (st : decoder_state)
    (tok : (Z * Z) * Z) :
  decodable ID2LABEL tok = true →
  ∃ st', decode_step ID2LABEL st tok = Ok st'.
Proof.
  destruct tok as [[s e] lid]. unfold decodable, decode_step, is_zero_zero,
    label_of. simpl. intros Hd.
  destruct ((s =? 0) && (e =? 0)); [eauto|]. simpl in Hd.
  case_bool_decide as HO; [eauto|]. simpl in Hd.
  apply bool_decide_eq_true in Hd as [[p T] ->].
  repeat case_bool_decide; eauto.
Qed.

Lemma decode_step_not_decodable (ID2LABEL : gmap Z string) (st : decoder_state)
    (tok : (Z * Z) * Z) :
  decodable ID2LABEL tok = false →
  decode_step ID2LABEL st tok = Raise ValueError.
Proof.
  destruct tok as [[s e] lid]. unfold decodable, decode_step, is_zero_zero,
    label_of. simpl. intros Hd.
  apply orb_false_iff in Hd as [Hd Hsplit].
  apply orb_false_iff in Hd as [-> HO]. rewrite HO.
  apply bool_decide_eq_false in Hsplit.
  destruct (Py.split_once "-" _) as [[p T]|]; [|done].
  exfalso. apply Hsplit. eauto.
Qed.

Lemma decode_loop_ok_iff (ID2LABEL : gmap Z string) (toks : list ((Z * Z) * Z)) :
  ∀ st,
    ((∃ st', for_each (decode_step ID2LABEL) st toks = Ok st')
     ↔ forallb (decodable ID2LABEL) toks = true)
    ∧ ∀ e, for_each (decode_step ID2LABEL) st toks = Raise e → e = ValueError.
Proof.
  induction toks as [|tok toks IH]; intros st.
  - split; [|done]. split; [done | eauto].
  - rewrite for_each_cons. cbn [forallb].
    destruct (decodable ID2LABEL tok) eqn:Hd.
    + destruct (decode_step_decodable ID2LABEL st tok Hd) as [st1 ->].
      rewrite bind_Ok. apply IH.
    + rewrite decode_step_not_decodable by done. split.
      * split; [intros [st' H]; done | done].
      * intros e [= <-]. done.
Qed.

(** X1. [bio_to_spans] raises only [ValueError], and it raises exactly
    when some token that is paired with a label id and is not skipped has
    a label other than O without a dash; otherwise it returns. *)
Theorem bio_to_spans_raises_iff (ID2LABEL : gmap Z string) (text : string)
    (offsets : list (Z * Z)) (label_ids : list Z) :
  ((∃ spans, bio_to_spans ID2LABEL text offsets label_ids = Ok spans)
   ↔ forallb (decodable ID2LABEL) (Py.zip offsets label_ids) = true)
  ∧ (forallb (decodable ID2LABEL) (Py.zip offsets label_ids) = false
     ↔ bio_to_spans ID2LABEL text offsets label_ids = Raise ValueError).
Proof.
  unfold bio_to_spans.
  destruct (decode_loop_ok_iff ID2LABEL (Py.zip offsets label_ids)
              decoder_init) as [Hiff Hraise].
  destruct (for_each _ decoder_init _) as [st|e] eqn:Hrun.
  - rewrite bind_Ok.
    assert (forallb (decodable ID2LABEL) (Py.zip offsets label_ids) = true)
      as -> by (apply Hiff; eauto).
    split; [split; eauto | split; done].
  - rewrite (Hraise e) by done. simpl.
    destruct (forallb _ _) eqn:Hall.
    + destruct (proj2 Hiff eq_refl) as [st' Hst']. done.
    + split; [split; [intros [sp H]; done | done] | done].
Qed.

(** ** SpanDecoder: where spans come from *)

(** The four outcomes of an iteration that does not raise. *)
Lemma decode_step_Ok_inv (ID2LABEL : gmap Z string) (st st' : decoder_state)
    (s e lid : Z) :
  decode_step ID2LABEL st ((s, e), lid) = Ok st' →
  st' = st
  ∨ (is_zero_zero (s, e) = false ∧ label_of ID2LABEL lid = "O"
     ∧ st' = DecoderState (emit_open st) None (current_start st)
                          (current_end st))
  ∨ (∃ T, is_zero_zero (s, e) = false ∧ label_type ID2LABEL lid = Some T
          ∧ st' = DecoderState (emit_open st) (Some T) s e)
  ∨ (∃ T, is_zero_zero (s, e) = false ∧ label_type ID2LABEL lid = Some T
          ∧ current_label st = Some T
          ∧ st' = DecoderState (spans st) (Some T) (current_start st) e).
Proof.
  unfold decode_step, is_zero_zero, label_type, label_of. simpl.
  destruct ((s =? 0) && (e =? 0)); [intros [= <-]; by left|].
  case_bool_decide as HO.
  { intros [= <-]. right. left. done. }
  destruct (Py.split_once "-" _) as [[p T]|]; [|done].
  case_bool_decide as HB.
  { intros [= <-]. right. right. left. exists T. done. }
  case_bool_decide as HI; [|intros [= <-]; by left].
  simpl. case_bool_decide as Hcur; intros [= <-].
  - right. right. right. exists T. rewrite Hcur. done.
  - right. right. left. exists T. done.
Qed.

Lemma span_from_tokens_mono (ID2LABEL : gmap Z string)
    (toks more : list ((Z * Z) * Z)) (sp : span) :
  span_from_tokens ID2LABEL toks sp →
  span_from_tokens ID2LABEL (toks ++ more) sp.
Proof.
  intros (i & j & ti & tj & Hij & Hi & Hj & H).
  exists i, j, ti, tj. split_and!; try tauto.
  - by apply lookup_app_l_Some.
  - by apply lookup_app_l_Some.
Qed.

Lemma span_from_last_token (ID2LABEL : gmap Z string)
    (toks : list ((Z * Z) * Z)) (s e lid : Z) (T : string) :
  is_zero_zero (s, e) = false → label_type ID2LABEL lid = Some T →
  span_from_tokens ID2LABEL (toks ++ [((s, e), lid)]) (s, e, T).
Proof.
  intros Hz HT. exists (length toks), (length toks), ((s, e), lid), ((s, e), lid).
  split_and!; try done; by rewrite list_lookup_middle.
Qed.

Lemma decode_loop_sources (ID2LABEL : gmap Z string)
    (toks : list ((Z * Z) * Z)) :
  ∀ st, for_each (decode_step ID2LABEL) decoder_init toks = Ok st →
        Forall (span_from_tokens ID2LABEL toks) (emit_open st).
Proof.
  induction toks as [|[[s e] lid] toks IH] using rev_ind; intros st.
  - intros [= <-]. constructor.
  - rewrite for_each_snoc.
    destruct (for_each _ decoder_init toks) as [st1|err]; [|done].
    rewrite bind_Ok. specialize (IH st1 eq_refl).
    assert (Forall (span_from_tokens ID2LABEL (toks ++ [((s, e), lid)]))
                   (emit_open st1)) as IH'.
    { eapply Forall_impl; [exact IH|]. intros sp.
      apply span_from_tokens_mono. }
    intros [->|[(Hz & HO & ->)|[(T & Hz & HT & ->)|(T & Hz & HT & Hcur & ->)]]]
      %decode_step_Ok_inv.
    + done.
    + done.
    + unfold emit_open at 1. simpl. apply Forall_app. split; [done|].
      apply Forall_singleton. by apply span_from_last_token.
    + unfold emit_open in *. simpl. rewrite Hcur in IH'.
      apply Forall_app in IH' as [Hsp Hlast]. apply Forall_app.
      split; [done|]. apply Forall_singleton.
      apply Forall_singleton in Hlast
        as (i & j & ti & tj & Hij & Hi & Hj & Hzi & Hzj & Hs & He & Hti & Htj).
      exists i, (length toks), ti, ((s, e), lid).
      apply lookup_lt_Some in Hj as Hlt.
      rewrite length_app in Hlt. simpl in Hlt.
      split_and!; try done; [lia | by rewrite list_lookup_middle].
Qed.

(** X2. Every span that [bio_to_spans] returns is made of tokens of the
    stream: its start is the start of a decoded token whose label is B-T
    or I-T for the span's type T, and its end is the end of that token or
    of a later decoded token with such a label. No offset and no type is
    invented. *)
Theorem spans_come_from_tokens (ID2LABEL : gmap Z string) (text : string)
    (offsets : list (Z * Z)) (label_ids : list Z) (spans : list span) :
  bio_to_spans ID2LABEL text offsets label_ids = Ok spans →
  Forall (span_from_tokens ID2LABEL (Py.zip offsets label_ids)) spans.
Proof.
  unfold bio_to_spans.
  destruct (for_each _ decoder_init _) as [st|err] eqn:Hrun; [|done].
  rewrite bind_Ok. intros [= <-]. by apply decode_loop_sources.
Qed.

Lemma spans_come_from_tokens_witness :
  Forall (span_from_tokens sample_ID2LABEL
            (Py.zip [(0, 0); (0, 4); (5, 8); (9, 12)] [0; 0; 1; 2]))
         [(5, 12, "PHONE")].
Proof.
  apply (spans_come_from_tokens sample_ID2LABEL "call 555 now"
           [(0, 0); (0, 4); (5, 8); (9, 12)] [0; 0; 1; 2]).
  vm_compute. reflexivity.
Defined.

Lemma decode_loop_all_O (ID2LABEL : gmap Z string) (label_ids : list Z) :
  Forall (fun lid => label_of ID2LABEL lid = "O") label_ids →
  ∀ offsets,
    for_each (decode_step ID2LABEL) decoder_init (Py.zip offsets label_ids)
    = Ok decoder_init.
Proof.
  induction 1 as [|lid lids Hlid Hall IH]; intros offsets.
  - by destruct offsets.
  - destruct offsets as [|[s e] offsets]; [done|].
    unfold Py.zip in *. cbn [zip_with]. rewrite for_each_cons.
    rewrite decode_step_O by done. rewrite bind_Ok.
    replace (if (s =? 0) && (e =? 0) then decoder_init else _)
      with decoder_init by (by destruct ((s =? 0) && (e =? 0))).
    apply IH.
Qed.

(** X3. Label ids that read as O, among them every id that the table does
    not hold, give no span: a stream all of whose label ids are such
    decodes to the empty list. *)
Theorem no_entity_labels_no_spans (ID2LABEL : gmap Z string) (text : string)
    (offsets : list (Z * Z)) (label_ids : list Z) :
  Forall (fun lid => ID2LABEL !! lid = None ∨ ID2LABEL !! lid = Some "O")
         label_ids →
  bio_to_spans ID2LABEL text offsets label_ids = Ok [].
Proof.
  intros Hall. unfold bio_to_spans. rewrite decode_loop_all_O; [done|].
  eapply Forall_impl; [exact Hall|]. intros lid Hlid.
  unfold label_of, Py.dict_get. by destruct Hlid as [-> | ->].
Qed.

Lemma no_entity_labels_no_spans_witness :
  bio_to_spans sample_ID2LABEL "call now" [(0, 0); (0, 4); (5, 8)] [0; 77; -100]
  = Ok [].
Proof.
  apply (no_entity_labels_no_spans sample_ID2LABEL "call now"
           [(0, 0); (0, 4); (5, 8)] [0; 77; -100]).
  apply Forall_cons. split; [right; vm_compute; reflexivity|].
  apply Forall_cons. split; [left; vm_compute; reflexivity|].
  apply Forall_cons. split; [left; vm_compute; reflexivity|].
  apply Forall_nil_2.
Defined.

(** X4. Under the conditions of the order guarantee, when moreover every
    decoded token lies within [0, n] (for instance the length of the
    text), every returned span is a range [0 <= start <= end <= n]. *)
Theorem spans_are_ranges_of_the_text (ID2LABEL : gmap Z string) (text : string)
    (offsets : list (Z * Z)) (label_ids : list Z) (n : Z) :
  bio_vocabulary ID2LABEL = true →
  left_to_right is_zero_zero offsets = true →
  Forall (fun off => is_zero_zero off = true ∨ (0 ≤ off.1 ∧ off.2 ≤ n))
         offsets →
  ∃ spans,
    bio_to_spans ID2LABEL text offsets label_ids = Ok spans
    ∧ Forall (fun sp => 0 ≤ span_start sp ∧ span_start sp ≤ span_end sp
                        ∧ span_end sp ≤ n) spans.
Proof.
  intros Hv Hord Hin. unfold bio_to_spans.
  destruct (decode_loop_inv ID2LABEL offsets Hv label_ids None decoder_init)
    as (st & prev & Hrun & _ & Hle); [apply decoder_inv_init | done |].
  rewrite Hrun, bind_Ok. eexists. split; [done|].
  apply decode_loop_sources in Hrun.
  rewrite Forall_forall in Hrun. rewrite Forall_forall in Hin.
  apply Forall_forall. intros sp Hsp.
  destruct (Hle sp Hsp) as [Hse _].
  destruct (Hrun sp Hsp)
    as (i & j & ti & tj & _ & Hi & Hj & Hzi & Hzj & Hs & He & _).
  assert (∀ k (t : (Z * Z) * Z),
            Py.zip offsets label_ids !! k = Some t →
            is_zero_zero t.1 = false → 0 ≤ t.1.1 ∧ t.1.2 ≤ n) as Hbound.
  { intros k [off lid] Hk Hz. unfold Py.zip in Hk.
    apply lookup_zip_with_Some in Hk as (off' & lid' & [= <- <-] & Hoff & _).
    apply list_elem_of_lookup_2 in Hoff.
    destruct (Hin off Hoff) as [Hz'|Hb]; [simpl in Hz; congruence | done]. }
  destruct (Hbound i ti Hi Hzi), (Hbound j tj Hj Hzj). lia.
Qed.

Lemma spans_are_ranges_of_the_text_witness :
  ∃ spans,
    bio_to_spans sample_ID2LABEL "call 555 now"
                 [(0, 0); (0, 4); (5, 8); (9, 12); (0, 0)] [0; 0; 1; 3; 0]
    = Ok spans
    ∧ Forall (fun sp => 0 ≤ span_start sp ∧ span_start sp ≤ span_end sp
                        ∧ span_end sp ≤ 12) spans.
Proof.
  apply (spans_are_ranges_of_the_text sample_ID2LABEL "call 555 now"
           [(0, 0); (0, 4); (5, 8); (9, 12); (0, 0)] [0; 0; 1; 3; 0] 12).
  - vm_compute. reflexivity.
  - vm_compute. reflexivity.
  - repeat (apply Forall_cons; split;
            [first [left; reflexivity | right; simpl; lia]|]).
    apply Forall_nil_2.
Defined.

(** ** SpanDecoder: decoding in pieces *)

Lemma emit_open_with_spans (p : list span) (st : decoder_state) :
  emit_open (with_spans p st) = p ++ emit_open st.
Proof.
  unfold emit_open, with_spans. simpl.
  destruct (current_label st); [by rewrite app_assoc | done].
Qed.

Lemma decode_step_with_spans (ID2LABEL : gmap Z string) (p : list span)
    (st : decoder_state) (tok : (Z * Z) * Z) :
  decode_step ID2LABEL (with_spans p st) tok
  = (st' ← decode_step ID2LABEL st tok; Ok (with_spans p st')).
Proof.
  destruct tok as [[s e] lid]. unfold decode_step.
  destruct ((s =? 0) && (e =? 0)); [done|].
  case_bool_decide.
  { rewrite bind_Ok, emit_open_with_spans. done. }
  destruct (Py.split_once "-" _) as [[pre T]|]; [|done].
  repeat case_bool_decide; rewrite bind_Ok;
    rewrite ?emit_open_with_spans; done.
Qed.

Lemma decode_loop_with_spans (ID2LABEL : gmap Z string) (p : list span)
    (toks : list ((Z * Z) * Z)) :
  ∀ st,
    for_each (decode_step ID2LABEL) (with_spans p st) toks
    = (st' ← for_each (decode_step ID2LABEL) st toks; Ok (with_spans p st')).
Proof.
  induction toks as [|tok toks IH]; intros st; [done|].
  rewrite !for_each_cons, decode_step_with_spans.
  destruct (decode_step ID2LABEL st tok) as [st1|err]; [|done].
  rewrite !bind_Ok. apply IH.
Qed.

Lemma same_view_emit (st1 st2 : decoder_state) :
  same_view st1 st2 → emit_open st1 = emit_open st2.
Proof.
  intros (Hsp & Hcl & Hcur). unfold emit_open. rewrite <- Hcl, Hsp.
  destruct (current_label st1) as [cl|]; [|done].
  destruct Hcur as [-> ->]; done.
Qed.

Lemma decode_step_same_view (ID2LABEL : gmap Z string)
    (st1 st2 : decoder_state) (tok : (Z * Z) * Z) :
  same_view st1 st2 →
  match decode_step ID2LABEL st1 tok, decode_step ID2LABEL st2 tok with
  | Ok a, Ok b => same_view a b
  | Raise e1, Raise e2 => e1 = e2
  | _, _ => False
  end.
Proof.
  intros Hv. pose proof (same_view_emit _ _ Hv) as Hemit.
  destruct Hv as (Hsp & Hcl & Hcur).
  destruct tok as [[s e] lid]. unfold decode_step.
  destruct ((s =? 0) && (e =? 0)); [done|].
  case_bool_decide.
  { rewrite Hemit. split_and!; done. }
  destruct (Py.split_once "-" _) as [[pre T]|]; [|done].
  case_bool_decide.
  { rewrite Hemit. split_and!; done. }
  case_bool_decide; [|done].
  rewrite <- Hcl. case_bool_decide as Hsame.
  - split_and!; [done | done |]. simpl. intros _.
    destruct Hcur as [-> _]; [congruence | done].
  - rewrite Hemit. split_and!; done.
Qed.

Lemma decode_loop_same_view (ID2LABEL : gmap Z string)
    (toks : list ((Z * Z) * Z)) :
  ∀ st1 st2,
    same_view st1 st2 →
    match for_each (decode_step ID2LABEL) st1 toks,
          for_each (decode_step ID2LABEL) st2 toks with
    | Ok a, Ok b => same_view a b
    | Raise e1, Raise e2 => e1 = e2
    | _, _ => False
    end.
Proof.
  induction toks as [|tok toks IH]; intros st1 st2 Hv; [done|].
  rewrite !for_each_cons.
  pose proof (decode_step_same_view ID2LABEL st1 st2 tok Hv) as Hstep.
  destruct (decode_step ID2LABEL st1 tok) as [a|e1],
           (decode_step ID2LABEL st2 tok) as [b|e2]; try done.
  rewrite !bind_Ok. by apply IH.
Qed.

(** At a boundary token the step from any state is the step from the
    initial state, after the spans that the state holds. *)
Lemma decode_step_boundary (ID2LABEL : gmap Z string) (st : decoder_state)
    (tok : (Z * Z) * Z) :
  is_boundary ID2LABEL tok = true →
  ∃ a b, decode_step ID2LABEL st tok = Ok a
         ∧ decode_step ID2LABEL decoder_init tok = Ok b
         ∧ same_view a (with_spans (emit_open st) b).
Proof.
  destruct tok as [[s e] lid]. unfold is_boundary, is_zero_zero, decode_step,
    label_of. simpl. intros [Hz Hl]%andb_true_iff.
  apply negb_true_iff in Hz. rewrite Hz.
  case_bool_decide as HO.
  { do 2 eexists. split_and!; try done.
    unfold same_view, with_spans, emit_open at 2. simpl.
    rewrite app_nil_r. split_and!; done. }
  simpl in Hl. apply prefix_two in Hl as [T ->]. simpl.
  do 2 eexists. split_and!; try done.
  unfold same_view, with_spans, emit_open at 2. simpl.
  rewrite app_nil_r. split_and!; done.
Qed.

(** X5. Decoding in pieces: at a decoded token whose label is O or B-T the
    decoder starts afresh, so the spans of the whole stream are the spans
    of the part before that token followed by the spans of the part from
    that token on; and if either part raises, so does the whole. *)
Theorem decoding_splits_at_boundary (ID2LABEL : gmap Z string) (text : string)
    (offs1 offs2 : list (Z * Z)) (lids1 lids2 : list Z) (off : Z * Z)
    (lid : Z) :
  length offs1 = length lids1 →
  is_boundary ID2LABEL (off, lid) = true →
  bio_to_spans ID2LABEL text (offs1 ++ off :: offs2) (lids1 ++ lid :: lids2)
  = (r1 ← bio_to_spans ID2LABEL text offs1 lids1;
     r2 ← bio_to_spans ID2LABEL text (off :: offs2) (lid :: lids2);
     Ok (r1 ++ r2)).
Proof.
  intros Hlen Hb. unfold bio_to_spans, Py.zip.
  rewrite zip_with_app by done. cbn [zip_with].
  rewrite for_each_app.
  destruct (for_each _ decoder_init (zip_with pair offs1 lids1)) as [st1|err];
    [|done].
  rewrite !bind_Ok, !for_each_cons.
  destruct (decode_step_boundary ID2LABEL st1 (off, lid) Hb)
    as (a & b & -> & -> & Hview).
  rewrite !bind_Ok.
  pose proof (decode_loop_same_view ID2LABEL (zip_with pair offs2 lids2)
                _ _ Hview) as Hloop.
  rewrite decode_loop_with_spans in Hloop.
  destruct (for_each _ a _) as [a'|e1], (for_each _ b _) as [b'|e2];
    simpl in Hloop; try done.
  - rewrite !bind_Ok. apply same_view_emit in Hloop.
    by rewrite Hloop, emit_open_with_spans.
  - by subst.
Qed.

Lemma decoding_splits_at_boundary_witness :
  bio_to_spans sample_ID2LABEL "abcdefghij"
               ([(0, 2); (2, 4)] ++ (4, 6) :: [(6, 8)])
               ([1; 2] ++ 3 :: [4])
  = (r1 ← bio_to_spans sample_ID2LABEL "abcdefghij" [(0, 2); (2, 4)] [1; 2];
     r2 ← bio_to_spans sample_ID2LABEL "abcdefghij" ((4, 6) :: [(6, 8)])
                       (3 :: [4]);
     Ok (r1 ++ r2)).
Proof.
  apply (decoding_splits_at_boundary sample_ID2LABEL "abcdefghij"
           [(0, 2); (2, 4)] [(6, 8)] [1; 2] [4] (4, 6) 3).
  - reflexivity.
  - vm_compute. reflexivity.
Defined.

(** ** Label vocabulary *)

Lemma label2id_snoc (label_list : list string) (l : string) :
  label2id (label_list ++ [l])
  = <[l := Z.of_nat (length label_list)]> (label2id label_list).
Proof.
  unfold label2id. rewrite imap_app, foldl_app. cbn [imap foldl].
  simpl. by rewrite Nat.add_0_r.
Qed.

Lemma label2id_last_index (label_list : list string) (l : string) (i : Z) :
  label2id label_list !! l = Some i
  ↔ ∃ k : nat, i = Z.of_nat k ∧ label_list !! k = Some l
               ∧ ∀ k' : nat, (k < k')%nat → label_list !! k' ≠ Some l.
Proof.
  revert i. induction label_list as [|x ll IH] using rev_ind; intros i.
  - split; [done|]. intros (k & _ & Hk & _). done.
  - rewrite label2id_snoc. destruct (decide (x = l)) as [->|Hne].
    + rewrite lookup_insert_eq. split.
      * intros [= <-]. exists (length ll). split_and!; [done| |].
        -- by rewrite list_lookup_middle.
        -- intros k' Hk' Hl. apply lookup_lt_Some in Hl.
           rewrite length_app in Hl. simpl in Hl. lia.
      * intros (k & -> & Hk & Hlast). f_equal.
        destruct (decide (k = length ll)) as [->|Hk']; [done|].
        apply lookup_lt_Some in Hk as Hlt. rewrite length_app in Hlt.
        simpl in Hlt. exfalso. apply (Hlast (length ll)); [lia|].
        by rewrite list_lookup_middle.
    + rewrite lookup_insert_ne by done. rewrite IH. split.
      * intros (k & -> & Hk & Hlast). exists k. split_and!; [done| |].
        -- by apply lookup_app_l_Some.
        -- intros k' Hk' Hl.
           destruct (decide (k' < length ll)%nat) as [Hlt|Hge].
           ++ rewrite lookup_app_l in Hl by done. by apply (Hlast k').
           ++ apply lookup_lt_Some in Hl as Hb. rewrite length_app in Hb.
              simpl in Hb. assert (k' = length ll) as -> by lia.
              rewrite list_lookup_middle in Hl by done. congruence.
      * intros (k & -> & Hk & Hlast). exists k.
        assert (k < length ll)%nat as Hlt.
        { apply lookup_lt_Some in Hk as Hb. rewrite length_app in Hb.
          simpl in Hb.
          destruct (decide (k = length ll)) as [->|]; [|lia].
          rewrite list_lookup_middle in Hk by done. congruence. }
        rewrite lookup_app_l in Hk by done. split_and!; [done | done |].
        intros k' Hk' Hl. apply (Hlast k' Hk'). by apply lookup_app_l_Some.
Qed.

(** X6. The vocabulary built from the label list gives a label the index
    of its last occurrence in the list, and gives an id to exactly the
    listed labels; for a list without repetition, the id of a label is its
    position, and the position's label is the label. *)
Theorem label2id_is_last_position (label_list : list string) (l : string) :
  (∀ i, label2id label_list !! l = Some i
        ↔ ∃ k : nat, i = Z.of_nat k ∧ label_list !! k = Some l
                     ∧ ∀ k' : nat, (k < k')%nat → label_list !! k' ≠ Some l)
  ∧ (is_Some (label2id label_list !! l) ↔ l ∈ label_list)
  ∧ (NoDup label_list →
     ∀ k : nat, label_list !! k = Some l
                ↔ label2id label_list !! l = Some (Z.of_nat k)).
Proof.
  split_and!.
  - apply label2id_last_index.
  - split.
    + intros [i (k & _ & Hk & _)%label2id_last_index].
      by apply list_elem_of_lookup_2 in Hk.
    + intros Hin. induction label_list as [|x ll IH] using rev_ind.
      * by inversion Hin.
      * rewrite label2id_snoc. destruct (decide (x = l)) as [->|Hne].
        -- rewrite lookup_insert_eq. eauto.
        -- rewrite lookup_insert_ne by done. apply IH.
           apply elem_of_app in Hin as [Hin|Hin]; [done|].
           apply list_elem_of_singleton in Hin. congruence.
  - intros Hnd k. rewrite label2id_last_index. split.
    + intros Hk. exists k. split_and!; [done | done |].
      intros k' Hk' Hl. pose proof (NoDup_lookup _ _ _ _ Hnd Hk Hl). lia.
    + intros (k0 & Heq & Hk0 & _). by replace k with k0 by lia.
Qed.

(** ** TokenLabelAligner: when it raises *)

Lemma getitem_cases {A : Type} (l : list A) (i : Z) :
  (- Py.len l ≤ i < Py.len l → ∃ x, Py.getitem l i = Ok x)
  ∧ (¬ (- Py.len l ≤ i < Py.len l) → Py.getitem l i = Raise IndexError).
Proof.
  unfold Py.getitem, Py.len. split; intros Hi.
  - destruct (Z.ltb_spec i 0).
    + destruct (Z.ltb_spec (i + Z.of_nat (length l)) 0); [lia|].
      destruct (Z.leb_spec (Z.of_nat (length l)) (i + Z.of_nat (length l)));
        [lia|]. simpl.
      destruct (lookup_lt_is_Some_2 l (Z.to_nat (i + Z.of_nat (length l))))
        as [x ->]; [lia | eauto].
    + destruct (Z.ltb_spec i 0); [lia|].
      destruct (Z.leb_spec (Z.of_nat (length l)) i); [lia|]. simpl.
      destruct (lookup_lt_is_Some_2 l (Z.to_nat i)) as [x ->]; [lia | eauto].
  - destruct (Z.ltb_spec i 0).
    + destruct (Z.ltb_spec (i + Z.of_nat (length l)) 0); [done|].
      destruct (Z.leb_spec (Z.of_nat (length l)) (i + Z.of_nat (length l)));
        [done | lia].
    + destruct (Z.ltb_spec i 0); [lia|].
      destruct (Z.leb_spec (Z.of_nat (length l)) i); [done | lia].
Qed.

Lemma token_label_cases (tokenizer : tokenizer_t) (l2i : gmap string Z)
    (char_tags : list string) (input_ids : list Z) (idx : nat) (off : Z * Z) :
  if alignable tokenizer l2i char_tags input_ids (idx, off)
  then ∃ lab, token_label tokenizer l2i char_tags input_ids idx off = Ok lab
  else token_label tokenizer l2i char_tags input_ids idx off = Raise IndexError
       ∨ token_label tokenizer l2i char_tags input_ids idx off = Raise KeyError.
Proof.
  destruct off as [s e]. unfold alignable, token_label. simpl.
  destruct (Z.eqb_spec s e) as [->|Hne]; simpl; [eauto|].
  destruct (getitem_cases input_ids (Z.of_nat idx)) as [Hin Hout].
  destruct (input_ids !! idx) as [tid|] eqn:Htid.
  - rewrite (getitem_in_range _ _ tid) by (lia || by rewrite Nat2Z.id).
    simpl. destruct (is_special_id tokenizer tid); simpl; [eauto|].
    unfold Py.dict_getitem.
    destruct (getitem_cases char_tags s) as [Hs Hs'].
    destruct (Z.ltb_spec s (Py.len char_tags)) as [Hlt|Hge].
    + destruct (Z.leb_spec (- Py.len char_tags) s) as [Hlo|Hlo].
      * destruct Hs as [tag ->]; [lia|]. simpl.
        destruct (l2i !! "O") as [o|]; simpl; [eauto | by right].
      * rewrite Hs' by lia. rewrite andb_false_r. by left.
    + destruct (Z.leb_spec (- Py.len char_tags) s) as [Hlo|Hlo];
        [|unfold Py.len in *; lia].
      destruct (l2i !! "O") as [o|]; simpl; [eauto | by right].
  - apply lookup_ge_None in Htid. rewrite Hout by (unfold Py.len; lia).
    by left.
Qed.

Lemma align_loop_cases (tokenizer : tokenizer_t) (l2i : gmap string Z)
    (char_tags : list string) (input_ids : list Z)
    (ios : list (nat * (Z * Z))) :
  ∀ acc : list Z,
    match for_each (fun bio_tags io =>
                      lab ← token_label tokenizer l2i char_tags input_ids
                                        io.1 io.2;
                      Ok (bio_tags ++ [lab])) acc ios with
    | Ok bio_tags =>
        forallb (alignable tokenizer l2i char_tags input_ids) ios = true
        ∧ length bio_tags = (length acc + length ios)%nat
    | Raise e =>
        forallb (alignable tokenizer l2i char_tags input_ids) ios = false
        ∧ (e = IndexError ∨ e = KeyError)
    end.
Proof.
  induction ios as [|[idx off] ios IH]; intros acc.
  - simpl. split; [done | lia].
  - rewrite for_each_cons. cbn [forallb fst snd].
    pose proof (token_label_cases tokenizer l2i char_tags input_ids idx off)
      as Hcase.
    destruct (alignable tokenizer l2i char_tags input_ids (idx, off)).
    + destruct Hcase as [lab ->]. rewrite !bind_Ok.
      specialize (IH (acc ++ [lab])).
      destruct (for_each _ (acc ++ [lab]) ios) as [tags|e]; [|done].
      destruct IH as [-> Hlen]. split; [done|].
      rewrite length_app in Hlen. simpl in *. lia.
    + destruct Hcase as [-> | ->]; simpl; split; auto.
Qed.

(** X7. Alignment returns one label per offset or raises [IndexError] or
    [KeyError], and it raises exactly when some token of non-zero width
    has no input id at its position, or has an ordinary id while O is not
    in the vocabulary or its start lies below [-len(char_tags)]. *)
Theorem alignment_raises_iff (tokenizer : tokenizer_t) (l2i : gmap string Z)
    (char_tags : list string) (offsets : list (Z * Z)) (input_ids : list Z) :
  match align_bio_tags tokenizer l2i char_tags offsets input_ids with
  | Ok bio_tags =>
      forallb (alignable tokenizer l2i char_tags input_ids)
              (imap pair offsets) = true
      ∧ length bio_tags = length offsets
  | Raise e =>
      forallb (alignable tokenizer l2i char_tags input_ids)
              (imap pair offsets) = false
      ∧ (e = IndexError ∨ e = KeyError)
  end.
Proof.
  unfold align_bio_tags.
  pose proof (align_loop_cases tokenizer l2i char_tags input_ids
                (imap pair offsets) []) as H.
  destruct (for_each _ [] (imap pair offsets)) as [tags|e]; [|done].
  destruct H as [-> Hlen]. split; [done|].
  by rewrite length_imap in Hlen.
Qed.

(** ** Records without a valid annotation *)

Lemma build_char_tags_all_invalid (text : string) (entities : list entity) :
  Forall (fun e => ¬ valid_entity text e) entities →
  build_char_tags text entities = Ok (replicate (String.length text) "O").
Proof.
  intros Hall. unfold build_char_tags, Py.repeat, Py.str_len.
  rewrite Nat2Z.id. generalize (replicate (String.length text) "O").
  induction Hall as [|e es He Hall IH]; intros tags; [done|].
  rewrite for_each_cons, tag_entity_invalid by done. rewrite bind_Ok.
  apply IH.
Qed.

Lemma aligned_label_all_O (tokenizer : tokenizer_t) (l2i : gmap string Z)
    (o : Z) (n : nat) (off : Z * Z) (tid : Z) :
  l2i !! "O" = Some o → 0 ≤ off.1 →
  aligned_label tokenizer l2i o (replicate n "O") off tid = -100
  ∨ aligned_label tokenizer l2i o (replicate n "O") off tid = o.
Proof.
  intros Ho Hpos. unfold aligned_label.
  destruct (bool_decide (off.1 = off.2) || is_special_id tokenizer tid);
    [by left|]. right.
  case_bool_decide as Hlt; [|done].
  unfold Py.len in Hlt. rewrite length_replicate in Hlt.
  rewrite lookup_replicate_2 by lia. by rewrite Ho.
Qed.

(** X8. A record without a valid annotation (none at all, as in a test
    record, or only invalid ones) round-trips to no span: when O has an id
    that the decoding table maps back to O and -100 is no id of the table,
    every token is labeled -100 or O and the decoder returns the empty
    list. *)
Theorem unlabeled_record_round_trips_to_nothing (tokenizer : tokenizer_t)
    (label_list : list string) (ID2LABEL : gmap Z string) (text : string)
    (entities : list entity) (toks : list token) :
  Forall (fun e => ¬ valid_entity text e) entities →
  tag_round_trips label_list ID2LABEL "O" = true →
  ID2LABEL !! (-100) = None →
  Forall (fun tok : token => 0 ≤ tok.1.1) toks →
  ∃ o gold,
    label2id label_list !! "O" = Some o
    ∧ (char_tags ← build_char_tags text entities;
       align_bio_tags tokenizer (label2id label_list) char_tags
                      toks.*1 toks.*2) = Ok gold
    ∧ Forall (fun g => g = -100 ∨ g = o) gold
    ∧ round_trip tokenizer label_list ID2LABEL text entities toks = Ok [].
Proof.
  intros Hinv (o & Ho & Hdec)%tag_round_trips_spec Hsent Hpos.
  exists o. eexists. split; [done|]. unfold round_trip.
  rewrite build_char_tags_all_invalid by done. rewrite !bind_Ok.
  rewrite (align_as_map _ _ o) by done. rewrite bind_Ok.
  assert (Forall (fun g => g = -100 ∨ g = o)
            ((fun tok : token =>
                aligned_label tokenizer (label2id label_list) o
                  (replicate (String.length text) "O") tok.1 tok.2) <$> toks))
    as Hgold.
  { apply Forall_fmap. eapply Forall_impl; [exact Hpos|].
    intros tok Htok. by apply aligned_label_all_O. }
  split_and!; [done | done |].
  unfold bio_to_spans. rewrite decode_loop_all_O; [done|].
  eapply Forall_impl; [exact Hgold|]. intros g [-> | ->];
    unfold label_of, Py.dict_get; by rewrite ?Hsent, ?Hdec.
Qed.

Lemma unlabeled_record_round_trips_to_nothing_witness :
  ∃ o gold,
    label2id sample_labels !! "O" = Some o
    ∧ (char_tags ← build_char_tags "call me" [Entity 3 3 "PHONE"];
       align_bio_tags sample_tokenizer (label2id sample_labels) char_tags
                      [((0, 0), 101); ((0, 4), 7); ((5, 7), 8)].*1
                      [((0, 0), 101); ((0, 4), 7); ((5, 7), 8)].*2) = Ok gold
    ∧ Forall (fun g => g = -100 ∨ g = o) gold
    ∧ round_trip sample_tokenizer sample_labels sample_ID2LABEL "call me"
                 [Entity 3 3 "PHONE"]
                 [((0, 0), 101); ((0, 4), 7); ((5, 7), 8)]
      = Ok [].
Proof.
  apply (unlabeled_record_round_trips_to_nothing sample_tokenizer sample_labels
           sample_ID2LABEL "call me" [Entity 3 3 "PHONE"]
           [((0, 0), 101); ((0, 4), 7); ((5, 7), 8)]).
  - apply Forall_cons. split; [|apply Forall_nil_2].
    unfold valid_entity. simpl. lia.
  - vm_compute. reflexivity.
  - vm_compute. reflexivity.
  - repeat constructor; simpl; lia.
Defined.

(** ** CharTagger on annotations that do not overlap *)

Lemma painted_covered (e : entity) (i : nat) (old : option string) :
  covers e i → painted e i old = Some (tag_in e i).
Proof.
  unfold covers, painted, tag_in. intros Hc.
  case_bool_decide; [done|]. rewrite bool_decide_eq_true_2 by lia. done.
Qed.

Lemma painted_not_covered (e : entity) (i : nat) (old : option string) :
  e_start e < e_end e → ¬ covers e i → painted e i old = old.
Proof.
  unfold covers, painted. intros Hse Hc.
  rewrite !bool_decide_eq_false_2 by lia. done.
Qed.

Lemma pairwise_disjoint_app_l (text : string) (es more : list entity) :
  pairwise_disjoint text (es ++ more) → pairwise_disjoint text es.
Proof.
  intros H a b Ha Hb. apply H; apply elem_of_app; by left.
Qed.

Lemma disjoint_tags_closed_form (text : string) (es : list entity) :
  pairwise_disjoint text es →
  ∃ tags,
    build_char_tags text es = Ok tags
    ∧ length tags = String.length text
    ∧ ∀ i : nat, (i < String.length text)%nat →
        (∀ a, a ∈ es → valid_entity text a → covers a i →
              tags !! i = Some (tag_in a i))
        ∧ ((∀ a, a ∈ es → valid_entity text a → ¬ covers a i) →
           tags !! i = Some "O").
Proof.
  induction es as [|e es IH] using rev_ind; intros Hdis.
  - eexists. split; [done|]. unfold Py.repeat, Py.str_len.
    rewrite Nat2Z.id, length_replicate. split; [done|].
    intros i Hi. split; [intros a Ha; by inversion Ha|].
    intros _. by apply lookup_replicate_2.
  - destruct (IH (pairwise_disjoint_app_l _ _ _ Hdis))
      as (tags & Hrun & Hlen & Hget).
    unfold build_char_tags in *. rewrite for_each_snoc, Hrun, bind_Ok.
    destruct (decide (valid_entity text e)) as [Hv|Hv].
    + destruct (tag_entity_valid text tags e Hv Hlen) as (t' & -> & Hl & Hp).
      exists t'. split; [done|]. split; [congruence|].
      intros i Hi. destruct (Hget i Hi) as [Hcov Hunc]. split.
      * intros a [Ha|Ha]%elem_of_app Hva Hca; rewrite Hp.
        -- assert (a = e ∨ e_end a ≤ e_start e ∨ e_end e ≤ e_start a)
             as [->|Hapart].
           { apply Hdis; [apply elem_of_app; by left | | done | done].
             apply elem_of_app. right. by apply list_elem_of_singleton. }
           ++ by apply painted_covered.
           ++ rewrite painted_not_covered; [by apply Hcov | apply Hv |].
              unfold covers in *. lia.
        -- apply list_elem_of_singleton in Ha as ->.
           by apply painted_covered.
      * intros Hnone. rewrite Hp, painted_not_covered.
        -- apply Hunc. intros a Ha. apply Hnone. apply elem_of_app. by left.
        -- apply Hv.
        -- apply Hnone; [|done].
           apply elem_of_app. right. by apply list_elem_of_singleton.
    + rewrite tag_entity_invalid by done. exists tags.
      split; [done|]. split; [done|]. intros i Hi.
      destruct (Hget i Hi) as [Hcov Hunc]. split.
      * intros a [Ha|Ha]%elem_of_app Hva Hca; [by apply Hcov|].
        apply list_elem_of_singleton in Ha as ->. done.
      * intros Hnone. apply Hunc. intros a Ha. apply Hnone.
        apply elem_of_app. by left.
Qed.

(** X9. For annotations whose valid members do not overlap, the tag array
    has a closed form: a character covered by a valid annotation carries
    B-label at the annotation's start and I-label elsewhere in it, and a
    character that no valid annotation covers carries O. *)
Theorem tags_of_disjoint_annotations (text : string) (es : list entity) :
  pairwise_disjoint text es →
  ∃ tags,
    build_char_tags text es = Ok tags
    ∧ length tags = String.length text
    ∧ ∀ i : nat, (i < String.length text)%nat →
        (∀ a, a ∈ es → valid_entity text a → covers a i →
              tags !! i = Some (tag_in a i))
        ∧ ((∀ a, a ∈ es → valid_entity text a → ¬ covers a i) →
           tags !! i = Some "O").
Proof. apply disjoint_tags_closed_form. Qed.

Lemma sample_entities_disjoint :
  pairwise_disjoint "call 555 or mail me"
                    [Entity 5 8 "PHONE"; Entity 12 16 "EMAIL"; Entity 9 9 "X"].
Proof.
  intros a b Ha Hb Hva Hvb.
  repeat (apply elem_of_cons in Ha as [->|Ha]);
    repeat (apply elem_of_cons in Hb as [->|Hb]);
    try (by inversion Ha); try (by inversion Hb);
    unfold valid_entity in *; simpl in *; try lia; auto.
Qed.

Lemma tags_of_disjoint_annotations_witness :
  ∃ tags,
    build_char_tags "call 555 or mail me"
                    [Entity 5 8 "PHONE"; Entity 12 16 "EMAIL"; Entity 9 9 "X"]
    = Ok tags
    ∧ length tags = String.length "call 555 or mail me"
    ∧ ∀ i : nat, (i < String.length "call 555 or mail me")%nat →
        (∀ a, a ∈ [Entity 5 8 "PHONE"; Entity 12 16 "EMAIL"; Entity 9 9 "X"] →
              valid_entity "call 555 or mail me" a → covers a i →
              tags !! i = Some (tag_in a i))
        ∧ ((∀ a, a ∈ [Entity 5 8 "PHONE"; Entity 12 16 "EMAIL";
                      Entity 9 9 "X"] →
                 valid_entity "call 555 or mail me" a → ¬ covers a i) →
           tags !! i = Some "O").
Proof.
  apply (tags_of_disjoint_annotations "call 555 or mail me"
           [Entity 5 8 "PHONE"; Entity 12 16 "EMAIL"; Entity 9 9 "X"]).
  exact sample_entities_disjoint.
Defined.

(** X10. Order does not matter for annotations that do not overlap: two
    lists with the same annotations in different orders, the valid ones
    pairwise apart, give the same tag array. *)
Theorem disjoint_annotations_commute (text : string) (es es' : list entity) :
  es ≡ₚ es' → pairwise_disjoint text es →
  build_char_tags text es = build_char_tags text es'.
Proof.
  intros Hperm Hdis.
  assert (pairwise_disjoint text es') as Hdis'.
  { intros a b Ha Hb. apply Hdis; by rewrite Hperm. }
  destruct (disjoint_tags_closed_form text es Hdis) as (t1 & -> & Hl1 & H1).
  destruct (disjoint_tags_closed_form text es' Hdis') as (t2 & -> & Hl2 & H2).
  f_equal. apply list_eq. intros i.
  destruct (decide (i < String.length text)%nat) as [Hi|Hi].
  - destruct (H1 i Hi) as [Hc1 Hu1], (H2 i Hi) as [Hc2 Hu2].
    destruct (decide (Exists (fun a => valid_entity text a ∧ covers a i) es))
      as [Hex|Hno].
    + apply Exists_exists in Hex as (a & Ha & Hva & Hca).
      rewrite (Hc1 a), (Hc2 a); try done. by rewrite <- Hperm.
    + rewrite Hu1, Hu2; [done | |].
      * intros a Ha Hva Hca. apply Hno. apply Exists_exists.
        exists a. by rewrite Hperm.
      * intros a Ha Hva Hca. apply Hno. apply Exists_exists. by exists a.
  - rewrite !lookup_ge_None_2 by lia. done.
Qed.

Lemma disjoint_annotations_commute_witness :
  build_char_tags "call 555 or mail me"
                  [Entity 5 8 "PHONE"; Entity 12 16 "EMAIL"; Entity 9 9 "X"]
  = build_char_tags "call 555 or mail me"
                    [Entity 12 16 "EMAIL"; Entity 9 9 "X"; Entity 5 8 "PHONE"].
Proof.
  apply (disjoint_annotations_commute "call 555 or mail me"
           [Entity 5 8 "PHONE"; Entity 12 16 "EMAIL"; Entity 9 9 "X"]
           [Entity 12 16 "EMAIL"; Entity 9 9 "X"; Entity 5 8 "PHONE"]).
  - apply (Permutation_app_comm [Entity 5 8 "PHONE"]
             [Entity 12 16 "EMAIL"; Entity 9 9 "X"]).
  - exact sample_entities_disjoint.
Defined.

(** ** BatchCollator on any batch *)

Lemma pad_closed_form {A : Type} (seq : list A) (v : A) (n : nat) :
  pad seq v (Z.of_nat n) = seq ++ replicate (n - length seq) v.
Proof.
  unfold pad, Py.repeat, Py.len. f_equal. f_equal. lia.
Qed.

(** X11. [collate_batch] raises [ValueError] on the empty batch. On any
    other batch it returns, with [n] the greatest input-ids length: every
    sequence followed by [n - len] pad values, a sequence longer than [n]
    (a mask or label list longer than every input-ids list) being
    returned as it is, not cut; and the ids, texts and offset mappings of
    the examples in batch order. *)
Theorem collate_batch_closed_form (batch : list item)
    (pad_token_id label_pad_id : Z) :
  match batch with
  | [] => collate_batch batch pad_token_id label_pad_id = Raise ValueError
  | _ :: _ =>
      ∃ n : nat,
        (∃ x, x ∈ batch ∧ length (it_input_ids x) = n)
        ∧ (∀ x, x ∈ batch → (length (it_input_ids x) ≤ n)%nat)
        ∧ collate_batch batch pad_token_id label_pad_id
          = Ok (BatchOut
                  ((fun x => it_input_ids x
                             ++ replicate (n - length (it_input_ids x))
                                          pad_token_id) <$> batch)
                  ((fun x => it_attention_mask x
                             ++ replicate (n - length (it_attention_mask x)) 0)
                   <$> batch)
                  ((fun x => it_labels x
                             ++ replicate (n - length (it_labels x))
                                          label_pad_id) <$> batch)
                  (it_id <$> batch) (it_text <$> batch)
                  (it_offset_mapping <$> batch))
  end.
Proof.
  destruct batch as [|x0 batch0]; [done|].
  set (batch := x0 :: batch0). unfold collate_batch.
  destruct (py_max_spec (Py.len <$> (it_input_ids <$> batch)))
    as (m & -> & Hin & Hmax); [done|].
  rewrite bind_Ok.
  apply list_elem_of_fmap in Hin as (ids0 & -> & Hin).
  apply list_elem_of_fmap in Hin as (x1 & -> & Hx1).
  exists (length (it_input_ids x1)). split_and!; [eauto| |].
  - intros x Hx. specialize (Hmax (Py.len (it_input_ids x))).
    unfold Py.len in Hmax.
    assert (Z.of_nat (length (it_input_ids x))
            ≤ Z.of_nat (length (it_input_ids x1))); [|lia].
    apply Hmax. apply list_elem_of_fmap. eexists. split; [done|].
    apply list_elem_of_fmap. eauto.
  - unfold Py.len at 1 2 3. f_equal. rewrite <- !list_fmap_compose.
    f_equal; apply list_fmap_ext; intros i x Hx; simpl;
      apply pad_closed_form.
Qed.

(** ** Dataset construction *)

Lemma align_length (tokenizer : tokenizer_t) (l2i : gmap string Z)
    (char_tags : list string) (offsets : list (Z * Z)) (input_ids : list Z)
    (bio_tags : list Z) :
  align_bio_tags tokenizer l2i char_tags offsets input_ids = Ok bio_tags →
  length bio_tags = length offsets.
Proof.
  unfold align_bio_tags. intros Hrun.
  pose proof (align_loop_cases tokenizer l2i char_tags input_ids
                (imap pair offsets) []) as H.
  rewrite Hrun in H. destruct H as [_ Hlen].
  by rewrite length_imap in Hlen.
Qed.

Lemma load_line_acc (json_loads : string → option json_obj)
    (tokenizer : tokenizer_t) (label_list : list string) (max_length : Z)
    (items : list item) (line : string) :
  load_line json_loads tokenizer label_list max_length items line
  = (its ← load_line json_loads tokenizer label_list max_length [] line;
     Ok (items ++ its)).
Proof.
  unfold load_line. case_bool_decide; [by rewrite bind_Ok, app_nil_r|].
  destruct (json_loads _) as [obj|]; [|done].
  destruct (j_text obj) as [text|]; [|done].
  destruct (build_char_tags _ _) as [tags|]; [|done]. rewrite !bind_Ok.
  destruct (align_bio_tags _ _ _ _ _) as [labs|]; [|done]. rewrite !bind_Ok.
  by destruct (j_id obj).
Qed.

Lemma load_lines_acc (json_loads : string → option json_obj)
    (tokenizer : tokenizer_t) (label_list : list string) (max_length : Z)
    (lines : list string) :
  ∀ items,
    for_each (load_line json_loads tokenizer label_list max_length) items lines
    = (its ← for_each (load_line json_loads tokenizer label_list max_length)
                      [] lines;
       Ok (items ++ its)).
Proof.
  induction lines as [|line lines IH]; intros items.
  - simpl. by rewrite app_nil_r.
  - rewrite !for_each_cons, load_line_acc.
    destruct (load_line _ _ _ _ [] line) as [its|]; [|done].
    rewrite !bind_Ok. cbn beta. rewrite (IH (items ++ its)), (IH its).
    destruct (for_each _ [] lines) as [more|]; [|done].
    by rewrite !bind_Ok, app_assoc.
Qed.

Lemma load_line_nonblank_inv (json_loads : string → option json_obj)
    (tokenizer : tokenizer_t) (label_list : list string) (max_length : Z)
    (line : string) (its : list item) :
  Py.strip line ≠ "" →
  load_line json_loads tokenizer label_list max_length [] line = Ok its →
  ∃ it, its = [it] ∧ item_of_line json_loads tokenizer max_length line it.
Proof.
  intros Hnb. unfold load_line. rewrite bool_decide_eq_false_2 by done.
  destruct (json_loads _) as [obj|] eqn:Hobj; [|done].
  destruct (j_text obj) as [text|] eqn:Htext; [|done].
  destruct (build_char_tags _ _) as [tags|]; [|done]. rewrite !bind_Ok.
  destruct (align_bio_tags _ _ _ _ _) as [labs|] eqn:Hal; [|done].
  rewrite !bind_Ok. destruct (j_id obj) as [id|] eqn:Hid; [|done].
  intros [= <-]. eexists. split; [done|]. exists obj. simpl.
  apply align_length in Hal. split_and!; done.
Qed.

Lemma dataset_items_of_lines (json_loads : string → option json_obj)
    (tokenizer : tokenizer_t) (label_list : list string) (max_length : Z)
    (lines : list string) :
  ∀ items,
    PIIDataset_init json_loads lines tokenizer label_list max_length = Ok items →
    Forall2 (item_of_line json_loads tokenizer max_length) (nonblank lines)
            items.
Proof.
  unfold PIIDataset_init, nonblank.
  induction lines as [|line lines IH]; intros items.
  - intros [= <-]. constructor.
  - rewrite for_each_cons.
    destruct (load_line _ _ _ _ [] line) as [its|] eqn:Hline; [|done].
    rewrite bind_Ok. cbn beta. rewrite load_lines_acc.
    destruct (for_each _ [] lines) as [more|]; [|done].
    rewrite bind_Ok. intros [= <-]. specialize (IH more eq_refl).
    rewrite filter_cons. case_decide as Hnb.
    + apply load_line_nonblank_inv in Hline as (it & -> & Hit); [|done].
      by constructor.
    + assert (Py.strip line = "") as Hb.
      { destruct (decide (Py.strip line = "")); [done | contradiction]. }
      rewrite load_line_blank in Hline by done.
      by injection Hline as <-.
Qed.

(** X12. Dataset construction goes line by line: the items of two
    inputs one after the other are the items of the first followed by the
    items of the second, and the whole raises as soon as either part
    does. *)
Theorem dataset_of_concatenated_lines (json_loads : string → option json_obj)
    (tokenizer : tokenizer_t) (label_list : list string) (max_length : Z)
    (lines1 lines2 : list string) :
  PIIDataset_init json_loads (lines1 ++ lines2) tokenizer label_list max_length
  = (items1 ← PIIDataset_init json_loads lines1 tokenizer label_list
                              max_length;
     items2 ← PIIDataset_init json_loads lines2 tokenizer label_list
                              max_length;
     Ok (items1 ++ items2)).
Proof.
  unfold PIIDataset_init. rewrite for_each_app.
  destruct (for_each _ [] lines1) as [items1|]; [|done].
  rewrite !bind_Ok. apply load_lines_acc.
Qed.

(** X13. When dataset construction returns, its items are, in order, those
    of the lines that are not blank: each such line parses to a record
    with the item's id and text, the item holds the tokenizer's encoding
    of the text and one label per offset. [__len__] is the number of
    these lines; [__getitem__] gives item [k] for index [k] and for index
    [k - len], and raises [IndexError] outside [-len, len). *)
Theorem dataset_items_follow_lines (json_loads : string → option json_obj)
    (tokenizer : tokenizer_t) (label_list : list string) (max_length : Z)
    (lines : list string) (items : list item) :
  PIIDataset_init json_loads lines tokenizer label_list max_length = Ok items →
  Forall2 (item_of_line json_loads tokenizer max_length) (nonblank lines) items
  ∧ PIIDataset_len items = Z.of_nat (length (nonblank lines))
  ∧ (∀ (k : nat) (it : item),
       items !! k = Some it →
       PIIDataset_getitem items (Z.of_nat k) = Ok it
       ∧ PIIDataset_getitem items (Z.of_nat k - PIIDataset_len items) = Ok it)
  ∧ (∀ idx : Z,
       ¬ (- PIIDataset_len items ≤ idx < PIIDataset_len items) →
       PIIDataset_getitem items idx = Raise IndexError).
Proof.
  intros Hinit. apply dataset_items_of_lines in Hinit as Hall.
  split_and!; [done | | |].
  - unfold PIIDataset_len, Py.len. by rewrite (Forall2_length _ _ _ Hall).
  - intros k it Hk. apply lookup_lt_Some in Hk as Hlt.
    unfold PIIDataset_getitem, PIIDataset_len. split.
    + apply getitem_in_range; [lia | by rewrite Nat2Z.id].
    + unfold Py.getitem, Py.len.
      destruct (Z.ltb_spec (Z.of_nat k - Z.of_nat (length items)) 0); [|lia].
      replace (Z.of_nat k - Z.of_nat (length items) + Z.of_nat (length items))
        with (Z.of_nat k) by lia.
      destruct (Z.ltb_spec (Z.of_nat k) 0); [lia|].
      destruct (Z.leb_spec (Z.of_nat (length items)) (Z.of_nat k)); [lia|].
      simpl. by rewrite Nat2Z.id, Hk.
  - intros idx Hout. by apply getitem_cases.
Qed.

Lemma dataset_items_follow_lines_witness :
  Forall2 (item_of_line sample_json_loads sample_tokenizer 128)
          (nonblank [sample_line; " "; sample_line])
          [Item "u1" "hi" [] [] [] []; Item "u1" "hi" [] [] [] []]
  ∧ PIIDataset_len [Item "u1" "hi" [] [] [] []; Item "u1" "hi" [] [] [] []]
    = Z.of_nat (length (nonblank [sample_line; " "; sample_line]))
  ∧ (∀ (k : nat) (it : item),
       [Item "u1" "hi" [] [] [] []; Item "u1" "hi" [] [] [] []] !! k = Some it →
       PIIDataset_getitem
         [Item "u1" "hi" [] [] [] []; Item "u1" "hi" [] [] [] []] (Z.of_nat k)
       = Ok it
       ∧ PIIDataset_getitem
           [Item "u1" "hi" [] [] [] []; Item "u1" "hi" [] [] [] []]
           (Z.of_nat k
            - PIIDataset_len
                [Item "u1" "hi" [] [] [] []; Item "u1" "hi" [] [] [] []])
         = Ok it)
  ∧ (∀ idx : Z,
       ¬ (- PIIDataset_len
              [Item "u1" "hi" [] [] [] []; Item "u1" "hi" [] [] [] []]
          ≤ idx
          < PIIDataset_len
              [Item "u1" "hi" [] [] [] []; Item "u1" "hi" [] [] [] []]) →
       PIIDataset_getitem
         [Item "u1" "hi" [] [] [] []; Item "u1" "hi" [] [] [] []] idx
       = Raise IndexError).
Proof.
  apply (dataset_items_follow_lines sample_json_loads sample_tokenizer
           sample_labels 128 [sample_line; " "; sample_line]
           [Item "u1" "hi" [] [] [] []; Item "u1" "hi" [] [] [] []]).
  vm_compute. reflexivity.
Defined.

(** ** Dataset items in a batch *)

Lemma collate_uniform (batch : list item) (pad_token_id label_pad_id : Z)
    (n : nat) :
  batch ≠ [] →
  Forall (fun x => length (it_input_ids x) = n
                   ∧ length (it_attention_mask x) = n
                   ∧ length (it_labels x) = n) batch →
  collate_batch batch pad_token_id label_pad_id = Ok (stacked batch).
Proof.
  intros Hne Hall. unfold collate_batch.
  destruct (py_max_spec (Py.len <$> (it_input_ids <$> batch)))
    as (m & -> & Hin & _); [by destruct batch|].
  rewrite bind_Ok. rewrite Forall_forall in Hall.
  apply list_elem_of_fmap in Hin as (ids0 & -> & Hin).
  apply list_elem_of_fmap in Hin as (x1 & -> & Hx1).
  destruct (Hall x1 Hx1) as (Hn1 & _). unfold Py.len at 1 2 3. rewrite Hn1.
  unfold stacked. f_equal. rewrite <- !list_fmap_compose.
  f_equal; apply list_fmap_ext; intros i x Hx;
    apply list_elem_of_lookup_2 in Hx; destruct (Hall x Hx) as (H1 & H2 & H3);
    simpl; rewrite pad_closed_form; rewrite ?H1, ?H2, ?H3, Nat.sub_diag;
    apply app_nil_r.
Qed.

Lemma dataset_items_padded (json_loads : string → option json_obj)
    (tokenizer : tokenizer_t) (label_list : list string) (max_length : Z)
    (lines : list string) (items : list item) (n : nat) :
  pads_to tokenizer max_length n →
  PIIDataset_init json_loads lines tokenizer label_list max_length = Ok items →
  Forall (fun x => length (it_input_ids x) = n
                   ∧ length (it_attention_mask x) = n
                   ∧ length (it_labels x) = n) items.
Proof.
  intros Hpad Hinit%dataset_items_of_lines.
  induction Hinit as [|line it lines' items' Hit _ IH]; constructor; [|done].
  destruct Hit as (obj & _ & _ & _ & Hids & Ham & Hoff & Hlab).
  destruct (Hpad (it_text it)) as (H1 & H2 & H3).
  rewrite Hids, Ham, Hlab, Hoff. done.
Qed.

(** X14. With a tokenizer that pads and truncates every text to one
    length, as the dataset asks it to, every item of the dataset has input
    ids, attention mask and labels of that length, and [collate_batch] on
    any non-empty batch of dataset items adds no padding: it returns the
    sequences of the items as they are, stacked in batch order. *)
Theorem padded_dataset_items_are_stacked
    (json_loads : string → option json_obj) (tokenizer : tokenizer_t)
    (label_list : list string) (max_length : Z) (lines : list string)
    (items batch : list item) (n : nat) (pad_token_id label_pad_id : Z) :
  pads_to tokenizer max_length n →
  PIIDataset_init json_loads lines tokenizer label_list max_length = Ok items →
  batch ≠ [] → (∀ x, x ∈ batch → x ∈ items) →
  Forall (fun x => length (it_input_ids x) = n
                   ∧ length (it_attention_mask x) = n
                   ∧ length (it_labels x) = n) items
  ∧ collate_batch batch pad_token_id label_pad_id = Ok (stacked batch).
Proof.
  intros Hpad Hinit Hne Hsub.
  pose proof (dataset_items_padded _ _ _ _ _ _ _ Hpad Hinit) as Hall.
  split; [done|]. apply (collate_uniform _ _ _ n); [done|].
  rewrite Forall_forall in Hall. apply Forall_forall. auto.
Qed.

Lemma padded_dataset_items_are_stacked_witness :
  Forall (fun x => length (it_input_ids x) = 4%nat
                   ∧ length (it_attention_mask x) = 4%nat
                   ∧ length (it_labels x) = 4%nat)
         [Item "u1" "hi" [101; 7; 102; 0] [1; 1; 1; 0] [-100; 0; -100; -100]
               [(0, 0); (0, 2); (0, 0); (0, 0)]]
  ∧ collate_batch
      [Item "u1" "hi" [101; 7; 102; 0] [1; 1; 1; 0] [-100; 0; -100; -100]
            [(0, 0); (0, 2); (0, 0); (0, 0)]] 0 (-100)
    = Ok (stacked
            [Item "u1" "hi" [101; 7; 102; 0] [1; 1; 1; 0]
                  [-100; 0; -100; -100] [(0, 0); (0, 2); (0, 0); (0, 0)]]).
Proof.
  apply (padded_dataset_items_are_stacked sample_json_loads padding_tokenizer
           sample_labels 128 [sample_line; ""]
           [Item "u1" "hi" [101; 7; 102; 0] [1; 1; 1; 0] [-100; 0; -100; -100]
                 [(0, 0); (0, 2); (0, 0); (0, 0)]]
           [Item "u1" "hi" [101; 7; 102; 0] [1; 1; 1; 0] [-100; 0; -100; -100]
                 [(0, 0); (0, 2); (0, 0); (0, 0)]]
           4 0 (-100)).
  - intros text. simpl. done.
  - vm_compute. reflexivity.
  - discriminate.
  - intros x Hx. exact Hx.
Defined.

(** ** Prediction over the lines *)

Lemma predict_line_acc (json_loads : string → option json_obj)
    (tokenizer : tokenizer_t) (model : list Z → list Z → list Z)
    (ID2LABEL : gmap Z string) (label_is_pii : string → bool) (max_length : Z)
    (results : gmap string (list pred_entity)) (line : string) :
  predict_line json_loads tokenizer model ID2LABEL label_is_pii max_length
               results line
  = (r ← predict_line json_loads tokenizer model ID2LABEL label_is_pii
                      max_length ∅ line;
     Ok (r ∪ results)).
Proof.
  unfold predict_line.
  destruct (json_loads line) as [obj|]; [|done].
  destruct (j_text obj) as [text|]; [|done].
  destruct (j_id obj) as [uid|]; [|done].
  destruct (bio_to_spans _ _ _ _) as [raw|]; [|done].
  rewrite !bind_Ok. f_equal.
  by rewrite insert_empty, <- insert_union_singleton_l.
Qed.

Lemma predict_lines_acc (json_loads : string → option json_obj)
    (tokenizer : tokenizer_t) (model : list Z → list Z → list Z)
    (ID2LABEL : gmap Z string) (label_is_pii : string → bool) (max_length : Z)
    (lines : list string) :
  ∀ results,
    for_each (predict_line json_loads tokenizer model ID2LABEL label_is_pii
                           max_length) results lines
    = (r ← for_each (predict_line json_loads tokenizer model ID2LABEL
                                  label_is_pii max_length) ∅ lines;
       Ok (r ∪ results)).
Proof.
  induction lines as [|line lines IH]; intros results.
  - simpl. by rewrite (left_id_L ∅ (∪)).
  - rewrite !for_each_cons, predict_line_acc.
    destruct (predict_line _ _ _ _ _ _ ∅ line) as [r1|]; [|done].
    rewrite !bind_Ok. cbn beta. rewrite (IH (r1 ∪ results)), (IH r1).
    destruct (for_each _ ∅ lines) as [r|]; [|done].
    by rewrite !bind_Ok, (assoc_L (∪)).
Qed.

(** X15. Prediction goes line by line: the results of two inputs one after
    the other are the results of both, the entry of the second input
    standing wherever an utterance id occurs in both (a later line
    replaces an earlier one with the same id); the whole raises as soon as
    either part does. *)
Theorem predictions_of_concatenated_lines
    (json_loads : string → option json_obj) (tokenizer : tokenizer_t)
    (model : list Z → list Z → list Z) (ID2LABEL : gmap Z string)
    (label_is_pii : string → bool) (max_length : Z)
    (lines1 lines2 : list string) :
  main json_loads (lines1 ++ lines2) tokenizer model ID2LABEL label_is_pii
       max_length
  = (r1 ← main json_loads lines1 tokenizer model ID2LABEL label_is_pii
               max_length;
     r2 ← main json_loads lines2 tokenizer model ID2LABEL label_is_pii
               max_length;
     Ok (r2 ∪ r1)).
Proof.
  unfold main. rewrite for_each_app.
  destruct (for_each _ ∅ lines1) as [r1|]; [|done].
  rewrite !bind_Ok. apply predict_lines_acc.
Qed.

(** ** SpanValidator: empty and widened spans *)

Lemma substring_empty (n m : nat) : String.substring n m "" = "".
Proof. by destruct n, m. Qed.

Lemma substring_zero (s : string) : ∀ n, String.substring n 0 s = "".
Proof.
  induction s as [|c s IH]; intros n; [apply substring_empty|].
  destruct n; [done | apply IH].
Qed.

Lemma substring_add (s : string) :
  ∀ n k1 k2,
    String.substring n (k1 + k2) s
    = String.substring n k1 s +:+ String.substring (n + k1) k2 s.
Proof.
  induction s as [|c s IH]; intros n k1 k2.
  - by rewrite !substring_empty.
  - destruct n as [|n]; [|apply IH].
    destruct k1 as [|k1]; [done|]. simpl. rewrite (IH 0%nat). done.
Qed.

Lemma slice_in_range (text : string) (a b : Z) :
  0 ≤ a → a ≤ b → b ≤ Py.str_len text →
  Py.slice text a b
  = String.substring (Z.to_nat a) (Z.to_nat b - Z.to_nat a) text.
Proof.
  intros Ha Hab Hb. unfold Py.slice. cbv zeta.
  destruct (Z.ltb_spec a 0); [lia|]. destruct (Z.ltb_spec b 0); [lia|].
  rewrite !Z.max_r, !Z.min_r by lia. f_equal. lia.
Qed.

Lemma slice_empty (text : string) (s e : Z) :
  0 ≤ s → 0 ≤ e → e ≤ s ∨ Py.str_len text ≤ s → Py.slice text s e = "".
Proof.
  intros Hs He Hdeg. unfold Py.slice. cbv zeta.
  destruct (Z.ltb_spec s 0); [lia|]. destruct (Z.ltb_spec e 0); [lia|].
  assert (Z.to_nat (Z.min (Py.str_len text) (Z.max 0 e)
                    - Z.min (Py.str_len text) (Z.max 0 s)) = 0%nat) as ->
    by lia.
  apply substring_zero.
Qed.

Lemma slice_widen (text : string) (s' s e e' : Z) :
  0 ≤ s' → s' ≤ s → s ≤ e → e ≤ e' → e' ≤ Py.str_len text →
  Py.slice text s' e'
  = Py.slice text s' s +:+ Py.slice text s e +:+ Py.slice text e e'.
Proof.
  intros. rewrite !slice_in_range by lia.
  replace (Z.to_nat e' - Z.to_nat s')%nat
    with ((Z.to_nat s - Z.to_nat s')
          + ((Z.to_nat e - Z.to_nat s) + (Z.to_nat e' - Z.to_nat e)))%nat
    by lia.
  rewrite !substring_add. repeat f_equal; lia.
Qed.

Lemma lower_app (a b : string) :
  Py.lower (a +:+ b) = Py.lower a +:+ Py.lower b.
Proof. induction a as [|c a IH]; simpl; [done | by rewrite IH]. Qed.

Lemma prefix_app (w s b : string) :
  String.prefix w s = true → String.prefix w (s +:+ b) = true.
Proof.
  revert s. induction w as [|c w IH]; intros s; [by destruct (s +:+ b)|].
  destruct s as [|d s]; [discriminate|]. simpl.
  destruct (ascii_dec c d); [apply IH | discriminate].
Qed.

Lemma contains_app_l (w s b : string) :
  Py.contains w s = true → Py.contains w (s +:+ b) = true.
Proof.
  induction s as [|c s IH].
  - intros Hp. assert (String.prefix w "" = true) as Hp'.
    { simpl in Hp. by rewrite orb_false_r in Hp. }
    apply (prefix_app _ _ b) in Hp'. change ("" +:+ b) with b in *.
    destruct b; cbn [Py.contains]; by rewrite Hp'.
  - change (String c s +:+ b) with (String c (s +:+ b)).
    cbn [Py.contains]. intros [Hp|Hc]%orb_true_iff.
    + apply (prefix_app _ _ b) in Hp.
      change (String c s +:+ b) with (String c (s +:+ b)) in Hp.
      by rewrite Hp.
    + rewrite IH by done. apply orb_true_r.
Qed.

Lemma contains_app_r (w a s : string) :
  Py.contains w s = true → Py.contains w (a +:+ s) = true.
Proof.
  intros Hc. induction a as [|c a IH]; [done|].
  change (String c a +:+ s) with (String c (a +:+ s)).
  cbn [Py.contains]. rewrite IH. apply orb_true_r.
Qed.

Lemma contains_widen (w a s b : string) :
  Py.contains w s = true → Py.contains w (a +:+ s +:+ b) = true.
Proof. intros Hc. apply contains_app_r. by apply contains_app_l. Qed.

Lemma has_digit_app (a b : string) :
  has_digit (a +:+ b) = has_digit a || has_digit b.
Proof.
  unfold has_digit. induction a as [|c a IH]; simpl; [done|].
  by rewrite IH, orb_assoc.
Qed.

Lemma has_digit_word_widen (a s b : string) :
  has_digit_word s = true → has_digit_word (a +:+ s +:+ b) = true.
Proof.
  unfold has_digit_word. rewrite !existsb_exists.
  intros (w & Hw & Hc). exists w. split; [done|]. by apply contains_widen.
Qed.

Lemma plausible_widen (label a s b : string) :
  plausible label s = true → plausible label (a +:+ s +:+ b) = true.
Proof.
  unfold plausible. repeat case_bool_decide; try done.
  - intros [[Hd|Hd]%orb_true_iff|Hd]%orb_true_iff.
    + rewrite !has_digit_app, Hd. by rewrite orb_true_r.
    + rewrite has_digit_word_widen by done. by rewrite orb_true_r.
    + rewrite contains_widen by done. by rewrite orb_true_r.
  - intros [Hd|Hd]%orb_true_iff.
    + rewrite !has_digit_app, Hd. by rewrite orb_true_r.
    + rewrite has_digit_word_widen by done. by rewrite orb_true_r.
  - intros [[Hd|Hd]%orb_true_iff|Hd]%orb_true_iff.
    + by rewrite contains_widen.
    + rewrite (contains_widen " at ") by done. by rewrite orb_true_r.
    + rewrite (contains_widen " dot ") by done. by rewrite orb_true_r.
Qed.

(** X16. A span whose [text[start:end]] is empty, because its end is not
    after its start or its start is not before the end of the text, is
    dropped by the filter when its label is PHONE, EMAIL or CREDIT_CARD,
    and is kept, flagged, under any other label. *)
Theorem empty_span_filtered_by_label (label_is_pii : string → bool)
    (text : string) (s e : Z) (lab : string) :
  0 ≤ s → 0 ≤ e → e ≤ s ∨ Py.str_len text ≤ s →
  filter_spans label_is_pii text [(s, e, lab)]
  = if bool_decide (lab ∈ ["PHONE"; "EMAIL"; "CREDIT_CARD"]) then []
    else [PredEntity s e lab (label_is_pii lab)].
Proof.
  intros Hs He Hdeg. unfold filter_spans. simpl.
  rewrite slice_empty by done. rewrite validate_span_plausible.
  case_bool_decide as Hin.
  - repeat (apply elem_of_cons in Hin as [->|Hin]); try done.
    by inversion Hin.
  - unfold plausible.
    rewrite !bool_decide_eq_false_2; [done | | |]; intros ->; apply Hin;
      repeat constructor.
Qed.

Lemma empty_span_filtered_by_label_witness :
  filter_spans (fun _ => true) "abcdef" [(3, 3, "PHONE")]
  = if bool_decide ("PHONE" ∈ ["PHONE"; "EMAIL"; "CREDIT_CARD"]) then []
    else [PredEntity 3 3 "PHONE" true].
Proof.
  apply (empty_span_filtered_by_label (fun _ => true) "abcdef" 3 3 "PHONE").
  - lia.
  - lia.
  - left. lia.
Defined.

(** X17. Widening keeps a span plausible: when [text[s:e]] passes
    [validate_span] for a label, so does [text[s':e']] for every range
    within the text that contains [s, e), since every rule asks for the
    presence of something. *)
Theorem widened_span_stays_valid (text : string) (s' s e e' : Z)
    (lab : string) :
  0 ≤ s' → s' ≤ s → s ≤ e → e ≤ e' → e' ≤ Py.str_len text →
  validate_span (Py.slice text s e) lab = true →
  validate_span (Py.slice text s' e') lab = true.
Proof.
  intros H0 H1 H2 H3 H4. rewrite !validate_span_plausible.
  rewrite (slice_widen text s' s e e') by done. rewrite !lower_app.
  apply plausible_widen.
Qed.

Lemma widened_span_stays_valid_witness :
  validate_span (Py.slice "call 555 now" 0 12) "PHONE" = true.
Proof.
  apply (widened_span_stays_valid "call 555 now" 0 5 8 12 "PHONE").
  - lia.
  - lia.
  - lia.
  - lia.
  - vm_compute. discriminate.
  - vm_compute. reflexivity.
Defined.

(** ** Round trip over tokens with gaps *)

Section round_trip_gaps.

Context (tokenizer : tokenizer_t) (l2i : gmap string Z)
        (ID2LABEL : gmap Z string) (tags : list string)
        (s e : Z) (lab : string) (o b i : Z).

Hypothesis Hvalid : 0 ≤ s ∧ s < e ∧ e ≤ Py.len tags.
Hypothesis Htags :
  ∀ n : nat, (n < length tags)%nat →
             tags !! n = painted (Entity s e lab) n (Some "O").
Hypothesis HO : l2i !! "O" = Some o.
Hypothesis HB : l2i !! ("B-" +:+ lab) = Some b.
Hypothesis HI : l2i !! ("I-" +:+ lab) = Some i.
Hypothesis HdecO : ID2LABEL !! o = Some "O".
Hypothesis HdecB : ID2LABEL !! b = Some ("B-" +:+ lab).
Hypothesis HdecI : ID2LABEL !! i = Some ("I-" +:+ lab).
Hypothesis Hsentinel : ID2LABEL !! (-100) = None.

Local Abbreviation gold := (gold_label tokenizer l2i o tags).
Local Abbreviation step := (gold_step tokenizer l2i ID2LABEL o tags).
Local Abbreviation open_upto := (decoder_open_upto s lab).

Lemma decode_gapped (sp0 : list span) (toks : list token) :
  ∀ last st,
    spans_range tokenizer last s e toks = true →
    open_upto sp0 last st →
    ∃ st', for_each step st toks = Ok st' ∧ open_upto sp0 (Some e) st'.
Proof.
  induction toks as [|tok toks IH]; intros last st Hr Hst.
  - destruct last as [a|]; [|done]. simpl in Hr.
    apply Z.eqb_eq in Hr as <-. by exists st.
  - cbn [spans_range] in Hr. rewrite for_each_cons.
    destruct tok as [[st_ en_] tid]. simpl in Hr.
    destruct (is_zero_zero (st_, en_)) eqn:Hz.
    + unfold is_zero_zero in Hz. simpl in Hz.
      apply andb_true_iff in Hz as [->%Z.eqb_eq ->%Z.eqb_eq].
      rewrite step_eq, decode_step_skip, bind_Ok. by apply (IH last).
    + apply andb_true_iff in Hr as [Hr Hrest].
      apply andb_true_iff in Hr as [Hr Hsp].
      apply andb_true_iff in Hr as [Hpos Hw%Z.ltb_lt].
      apply negb_true_iff in Hsp. destruct Hst as [Hsp0 Hcur].
      rewrite step_eq. destruct last as [a|].
      * apply andb_true_iff in Hpos as [Ha%Z.leb_le He%Z.ltb_lt].
        destruct Hcur as (Hcl & Hcs & Hce & Hsa).
        rewrite (gold_inside tokenizer l2i tags s e lab o i Hvalid Htags HI
                   (st_, en_, tid)); [|simpl; lia|done|done].
        rewrite (decode_step_I_same _ _ _ _ _ lab); [|lia|done|done].
        rewrite bind_Ok. apply (IH (Some en_)); [done|].
        split; [done|]. simpl. split_and!; [done | done | done | lia].
      * apply Z.eqb_eq in Hpos as ->.
        rewrite (gold_first tokenizer l2i tags s e lab o b Hvalid Htags HB
                   (s, en_, tid)) by done.
        rewrite (decode_step_B _ _ _ _ _ lab); [|lia|done].
        rewrite bind_Ok. apply (IH (Some en_)); [done|].
        split; [unfold emit_open; simpl; by rewrite Hcur|]. simpl.
        split_and!; [done | done | done | lia].
Qed.

Lemma decode_gold_gapped (pre mid post : list token) :
  Forall (fun tok : token => 0 ≤ tok.1.1) (pre ++ mid ++ post) →
  forallb (outside tokenizer s e) pre = true →
  spans_range tokenizer None s e mid = true →
  forallb (outside tokenizer s e) post = true →
  ∃ st, for_each step decoder_init (pre ++ mid ++ post) = Ok st
        ∧ emit_open st = [(s, e, lab)].
Proof.
  intros Hpos Hpre Hmid Hpost.
  apply Forall_app in Hpos as [Hpos1 Hpos].
  apply Forall_app in Hpos as [Hpos2 Hpos3].
  destruct (decode_outside tokenizer l2i ID2LABEL tags s e lab o Hvalid Htags
              HO HdecO Hsentinel pre Hpre Hpos1 decoder_init)
    as (st1 & Hrun1 & _ & Hidle).
  rewrite Hidle in Hrun1 by done.
  destruct (decode_gapped [] mid None decoder_init Hmid)
    as (st2 & Hrun2 & Hopen); [by split|].
  destruct (decode_outside tokenizer l2i ID2LABEL tags s e lab o Hvalid Htags
              HO HdecO Hsentinel post Hpost Hpos3 st2)
    as (st3 & Hrun3 & Hemit & _).
  exists st3. rewrite for_each_app, Hrun1, bind_Ok. cbn beta.
  rewrite for_each_app, Hrun2, bind_Ok. split; [exact Hrun3|].
  rewrite Hemit. destruct Hopen as (Hsp & Hcl & Hcs & Hce & _).
  unfold emit_open. by rewrite Hcl, Hsp, Hcs, Hce.
Qed.

End round_trip_gaps.

Lemma round_trip_gapped_spans (tokenizer : tokenizer_t)
    (label_list : list string) (ID2LABEL : gmap Z string) (text : string)
    (s e : Z) (lab : string) (pre mid post : list token) :
  valid_entity text (Entity s e lab) →
  tag_round_trips label_list ID2LABEL "O" = true →
  tag_round_trips label_list ID2LABEL ("B-" +:+ lab) = true →
  tag_round_trips label_list ID2LABEL ("I-" +:+ lab) = true →
  ID2LABEL !! (-100) = None →
  Forall (fun tok : token => 0 ≤ tok.1.1) (pre ++ mid ++ post) →
  forallb (outside tokenizer s e) pre = true →
  spans_range tokenizer None s e mid = true →
  forallb (outside tokenizer s e) post = true →
  round_trip tokenizer label_list ID2LABEL text [Entity s e lab]
             (pre ++ mid ++ post)
  = Ok [(s, e, lab)].
Proof.
  intros Hv HO HB HI Hsent Hpos Hpre Hmid Hpost.
  destruct (single_entity_tags text _ Hv) as (tags & Hrun & Hlen & Hget).
  apply tag_round_trips_spec in HO as (o & HO & HdecO).
  apply tag_round_trips_spec in HB as (b & HB & HdecB).
  apply tag_round_trips_spec in HI as (i & HI & HdecI).
  unfold round_trip. rewrite Hrun, bind_Ok.
  rewrite (align_as_map _ _ o) by done. rewrite bind_Ok.
  unfold bio_to_spans. rewrite zip_fst_map, for_each_fmap.
  destruct (decode_gold_gapped tokenizer (label2id label_list) ID2LABEL tags
              s e lab o b i) with (pre := pre) (mid := mid) (post := post)
    as (st & Hdec & Hemit); try done.
  - unfold valid_entity, Py.str_len in Hv. simpl in Hv. unfold Py.len. lia.
  - intros n Hn. apply Hget. lia.
  - match goal with
    | |- ?run ≫= _ = _ => replace run with (Ok st : result decoder_state)
    end.
    by rewrite bind_Ok, Hemit.
Qed.

(** X18. The round trip holds for word tokens with gaps between them: for
    a valid annotation (s, e, label) whose tags round-trip through the two
    vocabularies, and a stream of tokens outside the annotation, then
    tokens that cover [s, e) from s to e, each starting at or after the end
    of the one before (the characters in the gaps, such as spaces, belong
    to no token), then tokens outside again, the gold labels decode to
    exactly the span (s, e, label). *)
Theorem round_trip_with_gaps (tokenizer : tokenizer_t)
    (label_list : list string) (ID2LABEL : gmap Z string) (text : string)
    (s e : Z) (lab : string) (pre mid post : list token) :
  valid_entity text (Entity s e lab) →
  tag_round_trips label_list ID2LABEL "O" = true →
  tag_round_trips label_list ID2LABEL ("B-" +:+ lab) = true →
  tag_round_trips label_list ID2LABEL ("I-" +:+ lab) = true →
  ID2LABEL !! (-100) = None →
  Forall (fun tok : token => 0 ≤ tok.1.1) (pre ++ mid ++ post) →
  forallb (outside tokenizer s e) pre = true →
  spans_range tokenizer None s e mid = true →
  forallb (outside tokenizer s e) post = true →
  round_trip tokenizer label_list ID2LABEL text [Entity s e lab]
             (pre ++ mid ++ post)
  = Ok [(s, e, lab)].
Proof. apply round_trip_gapped_spans. Qed.

Lemma round_trip_with_gaps_witness :
  round_trip sample_tokenizer sample_labels sample_ID2LABEL email_text
             [Entity 15 45 "EMAIL"]
             (email_tokens_before ++ email_tokens_inside ++ email_tokens_after)
  = Ok [(15, 45, "EMAIL")].
Proof.
  apply (round_trip_with_gaps sample_tokenizer sample_labels sample_ID2LABEL
           email_text 15 45 "EMAIL" email_tokens_before email_tokens_inside
           email_tokens_after).
  - vm_compute. split_and!; done.
  - vm_compute. reflexivity.
  - vm_compute. reflexivity.
  - vm_compute. reflexivity.
  - vm_compute. reflexivity.
  - repeat constructor; simpl; lia.
  - vm_compute. reflexivity.
  - vm_compute. reflexivity.
  - vm_compute. reflexivity.
Defined.

(** X19. End to end: under the conditions of the round trip over tokens
    with gaps, aligning, decoding and validating give exactly one entity,
    the annotation itself with its PII flag, when [text[s:e]] passes the
    rule of its label, and nothing when it does not. *)
Theorem end_to_end_single_annotation (tokenizer : tokenizer_t)
    (label_list : list string) (ID2LABEL : gmap Z string)
    (label_is_pii : string → bool) (text : string) (s e : Z) (lab : string)
    (pre mid post : list token) :
  valid_entity text (Entity s e lab) →
  tag_round_trips label_list ID2LABEL "O" = true →
  tag_round_trips label_list ID2LABEL ("B-" +:+ lab) = true →
  tag_round_trips label_list ID2LABEL ("I-" +:+ lab) = true →
  ID2LABEL !! (-100) = None →
  Forall (fun tok : token => 0 ≤ tok.1.1) (pre ++ mid ++ post) →
  forallb (outside tokenizer s e) pre = true →
  spans_range tokenizer None s e mid = true →
  forallb (outside tokenizer s e) post = true →
  round_trip_validated tokenizer label_list ID2LABEL label_is_pii text
                       [Entity s e lab] (pre ++ mid ++ post)
  = Ok (if validate_span (Py.slice text s e) lab
        then [PredEntity s e lab (label_is_pii lab)]
        else []).
Proof.
  intros. unfold round_trip_validated.
  rewrite round_trip_gapped_spans by done. rewrite bind_Ok.
  unfold filter_spans. simpl. by destruct (validate_span _ _).
Qed.

Lemma end_to_end_single_annotation_witness :
  round_trip_validated sample_tokenizer sample_labels sample_ID2LABEL
                       (fun _ => true) email_text [Entity 15 45 "EMAIL"]
                       (email_tokens_before ++ email_tokens_inside
                        ++ email_tokens_after)
  = Ok [PredEntity 15 45 "EMAIL" true].
Proof.
  apply (end_to_end_single_annotation sample_tokenizer sample_labels
           sample_ID2LABEL (fun _ => true) email_text 15 45 "EMAIL"
           email_tokens_before email_tokens_inside email_tokens_after).
  - vm_compute. split_and!; done.
  - vm_compute. reflexivity.
  - vm_compute. reflexivity.
  - vm_compute. reflexivity.
  - vm_compute. reflexivity.
  - repeat constructor; simpl; lia.
  - vm_compute. reflexivity.
  - vm_compute. reflexivity.
  - vm_compute. reflexivity.
Defined.

(** * The data generators *)

(** ** Words, [split] and [join] *)





Lemma split_space (c : ascii) (s : string) :
  Py.is_space c = true → PyStr.split (String c s) = PyStr.split s.
Proof. intros Hc. simpl. by rewrite Hc. Qed.









Lemma rstrip_app_space (a : string) :
  Py.rstrip (a +:+ " ") = Py.rstrip a.
Proof.
  induction a as [|c a IH]; [done|].
  change (String c a +:+ " ") with (String c (a +:+ " ")).
  cbn [Py.rstrip]. by rewrite IH.
Qed.








(** ** Generators never stop short *)

Lemma gen_bind_returns {R : random_t} {A B : Type} (m : gen R A)
    (k : A → gen R B) (g g' : rng R) (a : A) :
  m g = Returns (a, g') → gen_bind m k g = k a g'.
Proof. unfold gen_bind. by intros ->. Qed.


Lemma random_choice_total {R : random_t} {A : Type} (seq : list A)
    (g : rng R) :
  seq ≠ [] → ∃ x g', random_choice seq g = Returns (x, g') ∧ x ∈ seq.
Proof.
  intros Hne. unfold random_choice. destruct (random_below R _ g) as [k g'].
  destruct (lookup_lt_is_Some_2 seq (k mod length seq)) as [x Hx].
  { apply Nat.mod_upper_bound. by destruct seq. }
  rewrite Hx. exists x, g'. split; [done|]. by apply list_elem_of_lookup_2 in Hx.
Qed.




Lemma gen_bind_ret {R : random_t} {A B : Type} (a : A) (k : A → gen R B)
    (g : rng R) :
  gen_bind (gen_ret a) k g = k a g.
Proof. done. Qed.

Lemma gen_bind_assoc {R : random_t} {A B C : Type} (m : gen R A)
    (k1 : A → gen R B) (k2 : B → gen R C) (g : rng R) :
  gen_bind (gen_bind m k1) k2 g = gen_bind m (fun a => gen_bind (k1 a) k2) g.
Proof. unfold gen_bind. by destruct (m g) as [[a g']|]. Qed.











(** ** Offsets of generated annotations *)











Ltac choose :=
  match goal with
  | |- context [gen_bind (random_choice ?seq) ?k ?g] =>
      let x := fresh "x" in
      let g' := fresh "g" in
      let H := fresh "Hchoice" in
      destruct (random_choice_total seq g) as (x & g' & H & ?Hx); [done|];
      rewrite (gen_bind_returns _ k _ _ _ H); cbn beta
  end.

Lemma fake_entity_listed (F : faker_t) (label : string) (fk : faker F) :
  label ∈ ["CREDIT_CARD"; "PHONE"; "EMAIL"; "PERSON_NAME"; "DATE"; "CITY"] →
  ∃ entity fk', DataGenerate2.fake_entity F label fk = Some (entity, fk').
Proof.
  intros Hin. unfold DataGenerate2.fake_entity.
  repeat (apply elem_of_cons in Hin as [->|Hin];
          [vm_compute bool_decide; cbv iota;
           match goal with |- context [Some ?p] => destruct p end;
           by eexists _, _|]).
  by apply elem_of_nil in Hin.
Qed.

Lemma nonempty_of_listed (l : list string) (x : string) :
  forallb (fun s => negb (bool_decide (s = ""))) l = true → x ∈ l → x ≠ "".
Proof.
  rewrite forallb_forall. intros Hall Hin%list_elem_of_In ->.
  specialize (Hall _ Hin). by rewrite bool_decide_eq_true_2 in Hall.
Qed.

Lemma get_base_data_total (R : random_t) (F : faker_t) (fk : faker F)
    (g : rng R) :
  ∃ prefix entity suffix label fk' g',
    DataGenerate2.get_base_data R F fk g
    = Returns ((prefix, entity, suffix, label), fk', g')
    ∧ label ∈ ["CREDIT_CARD"; "PHONE"; "EMAIL"; "PERSON_NAME"; "DATE"; "CITY"]
    ∧ DataGenerate2.fake_entity F label fk = Some (entity, fk')
    ∧ (prefix ≠ "" ∨ suffix ≠ "").
Proof.
  unfold DataGenerate2.get_base_data.
  match goal with
  | |- context [gen_bind (random_choice ?seq) ?k ?g] =>
      destruct (random_choice_total seq g) as (label & g1 & Hl & Hin);
      [done|]; rewrite (gen_bind_returns _ k _ _ _ Hl); cbn beta
  end.
  destruct (fake_entity_listed F label fk Hin) as (entity & fk' & He).
  cbv zeta. rewrite He. destruct (random_random R g1) as [roll g2].
  destruct (flt_lt R roll (q 6 10)); [|destruct (flt_lt R roll (q 8 10))];
    repeat first [rewrite gen_bind_assoc | choose | rewrite gen_bind_ret];
    eexists _, _, _, _, _, _; (split_and!; [reflexivity | done | done |]).
  - left. intros ->. clear Hin Hl.
    match goal with
    | H : "" ∈ _ :: _ |- _ =>
        apply elem_of_cons in H as [H|H];
        [|apply elem_of_cons in H as [H|H];
          [subst | by apply nonempty_of_listed in H]]
    end.
    + match goal with
      | H : "" = "my " +:+ ?t |- _ =>
          change ("my " +:+ t) with (String "m" ("y " +:+ t)) in H;
          discriminate H
      end.
    + match goal with
      | H : "" ∈ DataGenerate2.INTROS |- _ =>
          by apply nonempty_of_listed in H
      end.
  - right. intros ->.
    match goal with
    | H : "" ∈ _ |- _ => by apply nonempty_of_listed in H
    end.
  - left. intros ->.
    match goal with
    | H : "" ∈ [_; _; _; _] |- _ => by apply nonempty_of_listed in H
    end.
Qed.




(** X24. [get_base_data] always returns: every label that [random.choice]
    can draw is handled by the [if]/[elif] chain, so [entity] is bound at
    the [return] and is the faker's value for the label. In each of the
    three structures the prefix or the suffix is not empty. *)
Theorem base_data_always_returns (R : random_t) (F : faker_t)
    (fk : faker F) (g : rng R) :
  ∃ prefix entity suffix label fk' g',
    DataGenerate2.get_base_data R F fk g
    = Returns ((prefix, entity, suffix, label), fk', g')
    ∧ label ∈ ["CREDIT_CARD"; "PHONE"; "EMAIL"; "PERSON_NAME"; "DATE"; "CITY"]
    ∧ DataGenerate2.fake_entity F label fk = Some (entity, fk')
    ∧ (prefix ≠ "" ∨ suffix ≠ "").
Proof. apply get_base_data_total. Qed.



(** ** Texts that go through the digit loop *)












